(** * haptools: the command-line entry points of [haptools/__main__.py]

    The file embeds the four click commands of [__main__.py] ([karyogram],
    [simgenotype], [simphenotype], [transform]) as programs of a small
    state-and-exception monad that records every call into the modules the
    commands import, and the builtins of Python they rely on. *)

From Stdlib Require Import ZArith QArith Qabs String Ascii List Lia.
From Stdlib Require Import Decimal DecimalString DecimalZ DecimalPos.
From stdpp Require Import base option list sorting gmap strings.

Local Open Scope string_scope.
Local Open Scope Z_scope.

(** ** Python builtins used by the commands *)
Module Py.

(** Exceptions that can leave a command. *)
Inductive exn : Type :=
  | UsageError (msg : string)        (* click.UsageError *)
  | ValueError (msg : string)        (* builtin *)
  | ModelFormatError
  | MapNotFoundError
  | PanelValidationError
  | PedigreeError
  | MaterializationError
  | OtherError (name : string).

Inductive outcome (A : Type) : Type :=
  | Returned (a : A)
  | Raised (e : exn).
Arguments Returned {A} a.
Arguments Raised {A} e.

(** [s.split(sep)] for a one-character separator: never empty. *)
Fixpoint split (sep : ascii) (s : string) : list string :=
  match s with
  | EmptyString => [EmptyString]
  | String c s' =>
      if Ascii.eqb c sep then EmptyString :: split sep s'
      else match split sep s' with
           | [] => [String c EmptyString]
           | w :: ws => String c w :: ws
           end
  end.

(** [sep.join(parts)]. *)
Definition join (sep : ascii) (parts : list string) : string :=
  String.concat (String sep EmptyString) parts.

(** [dict(items)] on a list of lists: every item must have exactly two
    elements, a later key overwrites an earlier one. *)
Definition dict_step (acc : outcome (gmap string string)) (item : list string)
  : outcome (gmap string string) :=
  match acc with
  | Raised e => Raised e
  | Returned m =>
      match item with
      | [k; v] => Returned (<[k := v]> m)
      | _ => Raised (ValueError "dictionary update sequence element has wrong length; 2 is required")
      end
  end.

Definition dict (items : list (list string)) : outcome (gmap string string) :=
  fold_left dict_step items (Returned ∅).

(** Line boundaries of [str.splitlines]: the number of bytes (of the UTF-8
    text) the boundary at the head of [s] takes, [0%nat] when there is none.
    "\r\n" counts as one boundary; U+0085, U+2028 and U+2029 are the
    sequences C2 85, E2 80 A8 and E2 80 A9. *)
Definition is_break1 (c : ascii) : bool :=
  let n := nat_of_ascii c in
  (Nat.eqb n 10 || Nat.eqb n 13 || Nat.eqb n 11 || Nat.eqb n 12
   || Nat.eqb n 28 || Nat.eqb n 29 || Nat.eqb n 30)%bool.

Definition linebreak_len (s : string) : nat :=
  match s with
  | EmptyString => 0%nat
  | String c t =>
      if is_break1 c then
        match t with
        | String d _ =>
            if (Nat.eqb (nat_of_ascii c) 13 && Nat.eqb (nat_of_ascii d) 10)%bool
            then 2%nat else 1%nat
        | EmptyString => 1%nat
        end
      else
        match t with
        | String d u =>
            if (Nat.eqb (nat_of_ascii c) 194 && Nat.eqb (nat_of_ascii d) 133)%bool
            then 2%nat
            else match u with
                 | String e _ =>
                     if (Nat.eqb (nat_of_ascii c) 226
                         && Nat.eqb (nat_of_ascii d) 128
                         && (Nat.eqb (nat_of_ascii e) 168
                             || Nat.eqb (nat_of_ascii e) 169))%bool
                     then 3%nat else 0%nat
                 | EmptyString => 0%nat
                 end
        | EmptyString => 0%nat
        end
  end.

(** [s.splitlines()]: [skip] bytes of a boundary already recognised are
    still to be dropped. The head of the recursive result is the rest of
    the line being read; a final boundary opens no empty last line. *)
Fixpoint splitlines_from (skip : nat) (s : string) : list string :=
  match s with
  | EmptyString => []
  | String c s' =>
      match skip with
      | S k => splitlines_from k s'
      | O =>
          match linebreak_len s with
          | S k => EmptyString :: splitlines_from k s'
          | O =>
              match splitlines_from 0 s' with
              | [] => [String c EmptyString]
              | w :: ws => String c w :: ws
              end
          end
      end
  end.

Definition splitlines (s : string) : list string := splitlines_from 0 s.

(** The character [a] does not occur in [s]. *)
Fixpoint free (a : ascii) (s : string) : bool :=
  match s with
  | EmptyString => true
  | String c s' => negb (Ascii.eqb c a) && free a s'
  end.

(** Truthiness of a tuple or list: non-empty. *)
Definition truthy {A} (l : list A) : bool :=
  match l with [] => false | _ => true end.

End Py.

(** ** The modules the commands import, and the monad the commands run in *)
Module Cli.
Import Py.

(** What [__main__.py] does not define: the functions it imports from
    [.karyogram], [.sim_genotype], [.sim_phenotype] and [.transform], the
    clock, the standard output and the logging module. Each is a
    transformer of the state of the world that returns or raises. *)
Record Host : Type := {
    World : Type;
    Samples : Type;              (* first component of simulate_gt's result *)
    Breakpoints : Type;          (* second component; also write_breakpoints' result *)
    Float : Type;                (* Python floats: only subtracted and printed here *)
    Logger : Type;
    fsub : Float -> Float -> Float;
    fstr : Float -> string;
    host_time : World -> Float * World;
    host_print : string -> World -> World;
    host_getLogger : string -> World -> Logger * World;
    host_basicConfig : string -> string -> World -> World;
    host_PlotKaryogram :
      string -> string -> string -> option string -> option string ->
      option (gmap string string) -> World -> outcome unit * World;
    host_validate_params :
      string -> string -> list string -> Z -> string -> string -> bool ->
      World -> outcome unit * World;
    host_simulate_gt :
      string -> string -> list string -> Z -> option Z ->
      World -> outcome (Samples * Breakpoints) * World;
    host_write_breakpoints :
      Samples -> Breakpoints -> string -> World -> outcome Breakpoints * World;
    host_output_vcf :
      Breakpoints -> string -> string -> string -> string ->
      World -> outcome unit * World;
    host_simulate_pt :
      string -> string -> Z -> option Float -> option Float -> option string ->
      option (list string) -> option Z -> string -> Logger ->
      World -> outcome unit * World;
    host_transform_haps :
      string -> string -> option string -> option (list string) ->
      option (gset string) -> option Z -> bool -> string -> Logger ->
      World -> outcome unit * World;
  }.

Section Commands.
Context {H : Host}.

(** One event per call that leaves [__main__.py], with its arguments in
    the order of the call and how it ended. *)
Inductive event : Type :=
  | Ev_time (t : Float H)
  | Ev_print (line : string)
  | Ev_getLogger (name : string)
  | Ev_basicConfig (format level : string)
  | Ev_PlotKaryogram (bp sample out : string) (centromeres_file title : option string)
      (colors : option (gmap string string)) (r : outcome unit)
  | Ev_validate_params (model mapdir : string) (chroms : list string) (popsize : Z)
      (invcf sample_info : string) (only_breakpoint : bool) (r : outcome unit)
  | Ev_simulate_gt (model mapdir : string) (chroms : list string) (popsize : Z)
      (seed : option Z) (r : outcome (Samples H * Breakpoints H))
  | Ev_write_breakpoints (samples : Samples H) (breakpoints : Breakpoints H)
      (out : string) (r : outcome (Breakpoints H))
  | Ev_output_vcf (breakpoints : Breakpoints H) (model invcf sample_info out : string)
      (r : outcome unit)
  | Ev_simulate_pt (genotypes haplotypes : string) (replications : Z)
      (heritability prevalence : option (Float H)) (region : option string)
      (samples : option (list string)) (chunk_size : option Z) (output : string)
      (log : Logger H) (r : outcome unit)
  | Ev_transform_haps (genotypes haplotypes : string) (region : option string)
      (samples : option (list string)) (haplotype_ids : option (gset string))
      (chunk_size : option Z) (discard_missing : bool) (output : string)
      (log : Logger H) (r : outcome unit).

Record state : Type := { world : World H; trace : list event }.

Definition M (A : Type) : Type := state -> outcome A * state.

Definition ret {A} (a : A) : M A := fun s => (Returned a, s).

Definition raise {A} (e : exn) : M A := fun s => (Raised e, s).

Definition bind {A B} (m : M A) (k : A -> M B) : M B :=
  fun s =>
    match m s with
    | (Returned a, s') => k a s'
    | (Raised e, s') => (Raised e, s')
    end.

(** A call of a function that may raise: run it on the world, log it. *)
Definition call {A} (f : World H -> outcome A * World H)
    (ev : outcome A -> event) : M A :=
  fun s =>
    let '(r, w) := f (world s) in
    (r, {| world := w; trace := trace s ++ [ev r] |}).

(** A call of a function that always returns. *)
Definition call_total {A} (f : World H -> A * World H) (ev : A -> event) : M A :=
  fun s =>
    let '(a, w) := f (world s) in
    (Returned a, {| world := w; trace := trace s ++ [ev a] |}).

Definition lift_outcome {A} (r : outcome A) : M A := fun s => (r, s).

End Commands.

Arguments event : clear implicits.
Arguments state : clear implicits.
Arguments M : clear implicits.

Declare Scope py_scope.
Delimit Scope py_scope with py.
Notation "x <- m ;; k" := (bind m (fun x => k))
    (at level 100, m at next level, right associativity) : py_scope.
Notation "m ;;; k" := (bind m (fun _ => k))
    (at level 100, right associativity) : py_scope.

Section Imported.
Context {H : Host}.

Definition time : M H (Float H) := call_total (host_time H) Ev_time.

Definition print (line : string) : M H unit :=
  call_total (fun w => (tt, host_print H line w)) (fun _ => Ev_print line).

Definition getLogger (name : string) : M H (Logger H) :=
  call_total (host_getLogger H name) (fun _ => Ev_getLogger name).

Definition basicConfig (format level : string) : M H unit :=
  call_total (fun w => (tt, host_basicConfig H format level w))
             (fun _ => Ev_basicConfig format level).

Definition PlotKaryogram bp sample out centromeres_file title colors : M H unit :=
  call (host_PlotKaryogram H bp sample out centromeres_file title colors)
       (Ev_PlotKaryogram bp sample out centromeres_file title colors).

Definition validate_params model mapdir chroms popsize invcf sample_info
    only_breakpoint : M H unit :=
  call (host_validate_params H model mapdir chroms popsize invcf sample_info
          only_breakpoint)
       (Ev_validate_params model mapdir chroms popsize invcf sample_info
          only_breakpoint).

Definition simulate_gt model mapdir chroms popsize seed
  : M H (Samples H * Breakpoints H) :=
  call (host_simulate_gt H model mapdir chroms popsize seed)
       (Ev_simulate_gt model mapdir chroms popsize seed).

Definition write_breakpoints samples breakpoints out : M H (Breakpoints H) :=
  call (host_write_breakpoints H samples breakpoints out)
       (Ev_write_breakpoints samples breakpoints out).

Definition output_vcf breakpoints model invcf sample_info out : M H unit :=
  call (host_output_vcf H breakpoints model invcf sample_info out)
       (Ev_output_vcf breakpoints model invcf sample_info out).

Definition simulate_pt genotypes haplotypes replications heritability prevalence
    region samples chunk_size output log : M H unit :=
  call (host_simulate_pt H genotypes haplotypes replications heritability
          prevalence region samples chunk_size output log)
       (Ev_simulate_pt genotypes haplotypes replications heritability
          prevalence region samples chunk_size output log).

Definition transform_haps genotypes haplotypes region samples haplotype_ids
    chunk_size discard_missing output log : M H unit :=
  call (host_transform_haps H genotypes haplotypes region samples haplotype_ids
          chunk_size discard_missing output log)
       (Ev_transform_haps genotypes haplotypes region samples haplotype_ids
          chunk_size discard_missing output log).

End Imported.

Local Open Scope py_scope.

Section Karyogram.
Context {H : Host}.

(** [karyogram(bp, sample, out, title, centromeres, colors)] *)
Definition karyogram (bp sample out : string) (title centromeres colors : option string)
  : M H unit :=
  colors <- match colors with
            | Some colors =>
                d <- lift_outcome (dict (map (split ":") (split "," colors))) ;;
                ret (Some d)
            | None => ret None
            end ;;
  PlotKaryogram bp sample out centromeres title colors.

End Karyogram.

(** The [--colors] argument 'L1:C1,...,Ln:Cn' of a list of (label, color)
    pairs, the labels and colors it can be read back from (neither holds a
    comma or a colon), and the dictionary [dict] builds from the pairs. *)
Definition colors_arg (pairs : list (string * string)) : string :=
  join "," (map (fun p => join ":" [p.1; p.2]) pairs).

Definition no_sep (s : string) : bool := free "," s && free ":" s.

Definition colors_dict (pairs : list (string * string)) : gmap string string :=
  fold_left (fun m p => <[p.1 := p.2]> m) pairs ∅.

(** The colors a trace hands to [PlotKaryogram], call by call. *)
Definition plotted_colors {H : Host} (tr : list (event H))
  : list (option (gmap string string)) :=
  omap (fun ev => match ev with
                  | Ev_PlotKaryogram _ _ _ _ _ colors _ => Some colors
                  | _ => None
                  end) tr.

(** "The dictionary mapping each label Li to color Ci" was passed. *)
Definition maps_each_label (pairs : list (string * string))
    (passed : list (option (gmap string string))) : Prop :=
  exists d, passed = [Some d] /\ forall l c, (l, c) ∈ pairs -> d !! l = Some c.

Section Simgenotype.
Context {H : Host}.

(** [simgenotype(invcf, sample_info, model, mapdir, out, popsize, seed,
    chroms, only_breakpoint, verbose)] *)
Definition simgenotype (invcf sample_info model mapdir out : string) (popsize : Z)
    (seed : option Z) (chroms : string) (only_breakpoint verbose : bool)
  : M H unit :=
  start <- time ;;
  let chroms := split "," chroms in
  validate_params model mapdir chroms popsize invcf sample_info only_breakpoint ;;;
  sb <- simulate_gt model mapdir chroms popsize seed ;;
  let '(samples, breakpoints) := sb in
  breakpoints <- write_breakpoints samples breakpoints out ;;
  bp_end <- time ;;
  vcf_start <- time ;;
  (if negb only_breakpoint
   then output_vcf breakpoints model invcf sample_info out
   else ret tt) ;;;
  end_ <- time ;;
  if verbose then
    print ("Time elapsed for breakpoint simulation: " ++ fstr H (fsub H bp_end start)) ;;;
    print ("Time elapse for creating vcf: " ++ fstr H (fsub H end_ vcf_start)) ;;;
    print ("Time elapsed for simgenotype execution: " ++ fstr H (fsub H end_ start))
  else ret tt.

End Simgenotype.

(** An open text file handed over by [click.File("r")]: what [read()] returns. *)
Record TextFile : Type := { read : string }.

Section Simphenotype.
Context {H : Host}.

(** The block both commands open with (lines 261-273 and 430-442). *)
Definition handle_samples (samples : list string) (samples_file : option TextFile)
  : M H (option (list string)) :=
  (if (truthy samples && bool_decide (is_Some samples_file))%bool
   then raise (UsageError "You may only use one of --sample or --samples-file but not both.")
   else ret tt) ;;;
  match samples_file with
  | Some samps_file => ret (Some (splitlines (read samps_file)))
  | None =>
      if truthy samples then ret (Some samples) else ret None
  end.

(** [simphenotype(genotypes, haplotypes, replications, heritability,
    prevalence, region, samples, samples_file, chunk_size, output,
    verbosity)] *)
Definition simphenotype (genotypes haplotypes : string) (replications : Z)
    (heritability prevalence : option (Float H)) (region : option string)
    (samples : list string) (samples_file : option TextFile)
    (chunk_size : option Z) (output verbosity : string) : M H unit :=
  log <- getLogger "run" ;;
  basicConfig "[%(levelname)8s] %(message)s (%(filename)s:%(lineno)s)" verbosity ;;;
  samples <- handle_samples samples samples_file ;;
  simulate_pt genotypes haplotypes replications heritability prevalence region
    samples chunk_size output log.

(** The parameters the decorators of [simphenotype] declare: two
    arguments and eight options. *)
Record simphenotype_params : Type := {
    sp_genotypes : string;
    sp_haplotypes : string;
    sp_replications : Z;
    sp_heritability : option (Float H);
    sp_prevalence : option (Float H);
    sp_region : option string;
    sp_samples : list string;
    sp_samples_file : option TextFile;
    sp_output : string;
    sp_verbosity : string;
  }.

(** click calls the function with one keyword per declared parameter;
    [chunk_size] is not among them and takes the default of the
    signature, [None]. *)
Definition simphenotype_command (p : simphenotype_params) : M H unit :=
  simphenotype (sp_genotypes p) (sp_haplotypes p) (sp_replications p)
    (sp_heritability p) (sp_prevalence p) (sp_region p) (sp_samples p)
    (sp_samples_file p) None (sp_output p) (sp_verbosity p).

End Simphenotype.

Section Transform.
Context {H : Host}.

(** [transform(genotypes, haplotypes, region, samples, samples_file,
    haplotype_ids, chunk_size, discard_missing, output, verbosity)] *)
Definition transform (genotypes haplotypes : string) (region : option string)
    (samples : list string) (samples_file : option TextFile)
    (haplotype_ids : list string) (chunk_size : option Z) (discard_missing : bool)
    (output verbosity : string) : M H unit :=
  log <- getLogger "run" ;;
  basicConfig "[%(levelname)8s] %(message)s (%(filename)s:%(lineno)s)" verbosity ;;;
  samples <- handle_samples samples samples_file ;;
  let haplotype_ids :=
    if truthy haplotype_ids
    then Some (list_to_set haplotype_ids : gset string)
    else None in
  transform_haps genotypes haplotypes region samples haplotype_ids chunk_size
    discard_missing output log.

(** The parameters the decorators of [transform] declare: two arguments
    and eight options, [-c/--chunk-size] among them. *)
Record transform_params : Type := {
    tp_genotypes : string;
    tp_haplotypes : string;
    tp_region : option string;
    tp_samples : list string;
    tp_samples_file : option TextFile;
    tp_haplotype_ids : list string;
    tp_chunk_size : option Z;
    tp_discard_missing : bool;
    tp_output : string;
    tp_verbosity : string;
  }.

Definition transform_command (p : transform_params) : M H unit :=
  transform (tp_genotypes p) (tp_haplotypes p) (tp_region p) (tp_samples p)
    (tp_samples_file p) (tp_haplotype_ids p) (tp_chunk_size p)
    (tp_discard_missing p) (tp_output p) (tp_verbosity p).

End Transform.

(** The calls of a trace into [sim_genotype], in order. *)
Definition is_stage {H : Host} (ev : event H) : bool :=
  match ev with
  | Ev_validate_params _ _ _ _ _ _ _ _ | Ev_simulate_gt _ _ _ _ _ _
  | Ev_write_breakpoints _ _ _ _ | Ev_output_vcf _ _ _ _ _ _ => true
  | _ => false
  end.

Definition stage_events {H : Host} (tr : list (event H)) : list (event H) :=
  List.filter is_stage tr.


Definition is_write_breakpoints {H : Host} (ev : event H) : bool :=
  match ev with Ev_write_breakpoints _ _ _ _ => true | _ => false end.

Definition is_simulate_gt {H : Host} (ev : event H) : bool :=
  match ev with Ev_simulate_gt _ _ _ _ _ _ => true | _ => false end.

Definition validated {H : Host} (ev : event H) : bool :=
  match ev with Ev_validate_params _ _ _ _ _ _ _ (Returned _) => true | _ => false end.

(** The name of the function an event is a call of. *)
Definition call_name {H : Host} (ev : event H) : string :=
  match ev with
  | Ev_time _ => "time"
  | Ev_print _ => "print"
  | Ev_getLogger _ => "getLogger"
  | Ev_basicConfig _ _ => "basicConfig"
  | Ev_PlotKaryogram _ _ _ _ _ _ _ => "PlotKaryogram"
  | Ev_validate_params _ _ _ _ _ _ _ _ => "validate_params"
  | Ev_simulate_gt _ _ _ _ _ _ => "simulate_gt"
  | Ev_write_breakpoints _ _ _ _ => "write_breakpoints"
  | Ev_output_vcf _ _ _ _ _ _ => "output_vcf"
  | Ev_simulate_pt _ _ _ _ _ _ _ _ _ _ _ => "simulate_pt"
  | Ev_transform_haps _ _ _ _ _ _ _ _ _ _ => "transform_haps"
  end.


(** The five ways a run of [simgenotype] can go through its stages, with the
    way the run ends: each stage is reached only when the one before
    returned. *)
Inductive pipeline_run {H : Host} (invcf sample_info model mapdir out : string)
    (popsize : Z) (seed : option Z) (chroms : list string) (only_breakpoint : bool)
  : outcome unit -> list (event H) -> Prop :=
| run_invalid e :
    pipeline_run invcf sample_info model mapdir out popsize seed chroms only_breakpoint
      (Raised e)
      [Ev_validate_params model mapdir chroms popsize invcf sample_info only_breakpoint
         (Raised e)]
| run_simulation_failed e :
    pipeline_run invcf sample_info model mapdir out popsize seed chroms only_breakpoint
      (Raised e)
      [Ev_validate_params model mapdir chroms popsize invcf sample_info only_breakpoint
         (Returned tt);
       Ev_simulate_gt model mapdir chroms popsize seed (Raised e)]
| run_write_failed samples breakpoints e :
    pipeline_run invcf sample_info model mapdir out popsize seed chroms only_breakpoint
      (Raised e)
      [Ev_validate_params model mapdir chroms popsize invcf sample_info only_breakpoint
         (Returned tt);
       Ev_simulate_gt model mapdir chroms popsize seed (Returned (samples, breakpoints));
       Ev_write_breakpoints samples breakpoints out (Raised e)]
| run_only_breakpoint samples breakpoints written :
    only_breakpoint = true ->
    pipeline_run invcf sample_info model mapdir out popsize seed chroms only_breakpoint
      (Returned tt)
      [Ev_validate_params model mapdir chroms popsize invcf sample_info only_breakpoint
         (Returned tt);
       Ev_simulate_gt model mapdir chroms popsize seed (Returned (samples, breakpoints));
       Ev_write_breakpoints samples breakpoints out (Returned written)]
| run_with_vcf samples breakpoints written r :
    only_breakpoint = false ->
    pipeline_run invcf sample_info model mapdir out popsize seed chroms only_breakpoint
      r
      [Ev_validate_params model mapdir chroms popsize invcf sample_info only_breakpoint
         (Returned tt);
       Ev_simulate_gt model mapdir chroms popsize seed (Returned (samples, breakpoints));
       Ev_write_breakpoints samples breakpoints out (Returned written);
       Ev_output_vcf written model invcf sample_info out r].

(** What [simulate_pt] and [transform_haps] were handed as the sample subset
    and as the chunk size, call by call. *)
Definition pt_samples {H : Host} (tr : list (event H)) : list (option (list string)) :=
  omap (fun ev => match ev with
                  | Ev_simulate_pt _ _ _ _ _ _ samples _ _ _ _ => Some samples
                  | _ => None
                  end) tr.

Definition pt_chunk_sizes {H : Host} (tr : list (event H)) : list (option Z) :=
  omap (fun ev => match ev with
                  | Ev_simulate_pt _ _ _ _ _ _ _ chunk_size _ _ _ => Some chunk_size
                  | _ => None
                  end) tr.

Definition th_samples {H : Host} (tr : list (event H)) : list (option (list string)) :=
  omap (fun ev => match ev with
                  | Ev_transform_haps _ _ _ samples _ _ _ _ _ _ => Some samples
                  | _ => None
                  end) tr.

Definition th_chunk_sizes {H : Host} (tr : list (event H)) : list (option Z) :=
  omap (fun ev => match ev with
                  | Ev_transform_haps _ _ _ _ _ chunk_size _ _ _ _ => Some chunk_size
                  | _ => None
                  end) tr.

(** A samples file of the given lines, each closed by a line feed, and the
    lines a file can hold one per line: no byte of a line boundary of
    [str.splitlines] (C2 and E2 open the boundaries beyond ASCII). *)
Fixpoint samples_text (ls : list string) : string :=
  match ls with
  | [] => ""
  | l :: ls' => l ++ String "010" (samples_text ls')
  end.

Definition plain_line (l : string) : bool :=
  forallb (fun a => negb (is_break1 a)
                    && negb (Nat.eqb (nat_of_ascii a) 194)
                    && negb (Nat.eqb (nat_of_ascii a) 226))
          (list_ascii_of_string l).

(** Running a command from a world with an empty log. *)
Definition run {H : Host} {A} (m : M H A) (w : World H) : outcome A * state H :=
  m {| world := w; trace := [] |}.

(** Symbolic execution of a command: unfold the monad, then split on what
    each call of the host returns. *)
Ltac run_host :=
  repeat (simpl;
    match goal with
    | |- context [host_time ?H ?w] => destruct (host_time H w) as [? ?]
    | |- context [host_getLogger ?H ?n ?w] => destruct (host_getLogger H n w) as [? ?]
    | |- context [host_validate_params ?H ?a ?b ?c ?d ?e ?f ?g ?w] =>
        destruct (host_validate_params H a b c d e f g w) as [[[]|?] ?]
    | |- context [host_simulate_gt ?H ?a ?b ?c ?d ?e ?w] =>
        destruct (host_simulate_gt H a b c d e w) as [[[? ?]|?] ?]
    | |- context [host_write_breakpoints ?H ?a ?b ?c ?w] =>
        destruct (host_write_breakpoints H a b c w) as [[?|?] ?]
    | |- context [host_output_vcf ?H ?a ?b ?c ?d ?e ?w] =>
        destruct (host_output_vcf H a b c d e w) as [[[]|?] ?]
    | |- context [host_simulate_pt ?H ?a ?b ?c ?d ?e ?f ?g ?h ?i ?j ?w] =>
        destruct (host_simulate_pt H a b c d e f g h i j w) as [? ?]
    | |- context [host_transform_haps ?H ?a ?b ?c ?d ?e ?f ?g ?h ?i ?w] =>
        destruct (host_transform_haps H a b c d e f g h i w) as [? ?]
    end).

Ltac unfold_commands :=
  unfold run, simgenotype, simphenotype_command, simphenotype, transform_command,
    transform, handle_samples, karyogram, bind, ret, raise, lift_outcome, time, print,
    getLogger, basicConfig, PlotKaryogram, validate_params, simulate_gt,
    write_breakpoints, output_vcf, simulate_pt, transform_haps, call, call_total.

(** *** What a trace shows, and the texts the commands split *)

(** The number of occurrences of the character [a] in [s]. *)
Fixpoint occurrences (a : ascii) (s : string) : nat :=
  match s with
  | EmptyString => 0%nat
  | String c s' => ((if Ascii.eqb c a then 1 else 0) + occurrences a s')%nat
  end.

(** The readings of the clock, in the order of a trace. *)
Definition clock_reads {H : Host} (tr : list (event H)) : list (Float H) :=
  omap (fun ev => match ev with Ev_time t => Some t | _ => None end) tr.

(** The lines printed, in the order of a trace. *)
Definition printed {H : Host} (tr : list (event H)) : list string :=
  omap (fun ev => match ev with Ev_print line => Some line | _ => None end) tr.

(** The chromosome lists a trace hands to [validate_params] and to
    [simulate_gt], call by call. *)
Definition stage_chroms {H : Host} (tr : list (event H)) : list (list string) :=
  omap (fun ev => match ev with
                  | Ev_validate_params _ _ chroms _ _ _ _ _ => Some chroms
                  | Ev_simulate_gt _ _ chroms _ _ _ => Some chroms
                  | _ => None
                  end) tr.

(** A text of the lines [ls], each closed by the terminator [eol]. *)
Fixpoint file_text (eol : string) (ls : list string) : string :=
  match ls with
  | [] => ""
  | l :: ls' => l ++ eol ++ file_text eol ls'
  end.

(** No character of [l] is a one-byte line boundary of [str.splitlines]. *)
Definition no_break (l : string) : bool :=
  forallb (fun a => negb (is_break1 a)) (list_ascii_of_string l).

(** The message of the usage error, as lines 264 and 433 spell it. *)
Definition usage_message : string :=
  "You may only use one of --sample or --samples-file but not both.".

(** The format of the log records, as lines 258 and 427 spell it. *)
Definition log_format : string :=
  "[%(levelname)8s] %(message)s (%(filename)s:%(lineno)s)".

(** The line terminators of text files: line feed, carriage return, and the
    two together. *)
Definition eol_lf : string := String "010" "".

Definition eol_cr : string := String "013" "".

Definition eol_crlf : string := String "013" (String "010" "").

(** The exception a call ended with, if it raised. *)
Definition raised_by {H : Host} (ev : event H) : option exn :=
  let of_outcome {A} (r : outcome A) :=
    match r with Raised e => Some e | Returned _ => None end in
  match ev with
  | Ev_time _ | Ev_print _ | Ev_getLogger _ | Ev_basicConfig _ _ => None
  | Ev_PlotKaryogram _ _ _ _ _ _ r => of_outcome r
  | Ev_validate_params _ _ _ _ _ _ _ r => of_outcome r
  | Ev_simulate_gt _ _ _ _ _ r => of_outcome r
  | Ev_write_breakpoints _ _ _ r => of_outcome r
  | Ev_output_vcf _ _ _ _ _ r => of_outcome r
  | Ev_simulate_pt _ _ _ _ _ _ _ _ _ _ r => of_outcome r
  | Ev_transform_haps _ _ _ _ _ _ _ _ _ r => of_outcome r
  end.

(** An item of [--colors] read as line 50 reads it, [item.split(":")]: the
    label and the color of an item with one colon. *)
Definition color_item (item : string) : string * string :=
  match split ":" item with
  | [l; c] => (l, c)
  | _ => ("", "")
  end.

(** The text does not open with a line feed. *)
Definition no_lf_head (s : string) : bool :=
  match s with
  | String c _ => negb (Nat.eqb (nat_of_ascii c) 10)
  | EmptyString => true
  end.

End Cli.

(** ** The simulator behind [simgenotype]: [haptools/sim_genotype.py]

    The module is imported by [__main__.py] but is not part of the sources at
    hand. What follows is its data model and its three stages as the
    specification describes them (sections 3, 4.4, 4.5 and 6). *)
Module SimGenotype.
Import Py.

(** Modelled from the spec: section 3, AncestryBreakpoint, absent from the
    sources: chromosome, end position and population label; the ancestry
    from the previous breakpoint (or the chromosome start) up to [bp_end]. *)
Record AncestryBreakpoint : Type := {
  bp_chrom : string;
  bp_end : Z;
  bp_pop : string;
}.

(** Modelled from the spec: the ordered breakpoint sequence of one haplotype
    on one chromosome (section 3), absent from the sources. *)
Definition track : Type := list AncestryBreakpoint.

(** Modelled from the spec: one haplotype, a track for every requested
    chromosome in the order of the request (section 3), absent from the
    sources. *)
Definition haplotype : Type := list (string * track).

(** Modelled from the spec: an individual of the pedigree, its two
    haplotypes (section 4.4), absent from the sources. *)
Definition individual : Type := (haplotype * haplotype)%type.

(** Modelled from the spec: section 3, SimulatedSample, absent from the
    sources: an identifier and, for every chromosome, two breakpoint
    sequences. *)
Record SimulatedSample : Type := {
  sample_id : string;
  sample_haps : individual;
}.

(** Modelled from the spec: section 3, GeneticMap, absent from the sources:
    (physical position, genetic position in centiMorgans) in map order. *)
Definition GeneticMap : Type := list (Z * Q).

(** Modelled from the spec: the first mapped position of a chromosome, where
    the recombination walk starts (section 4.4), absent from the sources. *)
Definition chrom_start (m : GeneticMap) : Z := default 0 (head (m.*1)).

(** Modelled from the spec: the last mapped position of a chromosome, where every
    track ends (section 3), absent from the sources. *)
Definition chrom_end (m : GeneticMap) : Z := default 0 (last (m.*1)).

(** Modelled from the spec: section 3, AdmixtureModel, absent from the
    sources: the number of samples and, per generation, the proportion of
    every population. *)
Record AdmixtureModel : Type := {
  num_samples : Z;
  generations : list (list (string * Q));
}.

(** Modelled from the spec: section 4.1, the checks of the Model Parser,
    absent from the sources: every generation sums to one within 1e-6, uses
    only labels of the founder generation, and the sample count is positive. *)
Definition proportions_ok (props : list (string * Q)) : bool :=
  forallb (fun p => Qle_bool 0 p.2) props
  && Qle_bool (Qabs (foldr Qplus 0%Q (props.*2) - 1)%Q) (1 # 1000000).

(** Modelled from the spec: section 4.1, the label check of the Model Parser, absent
    from the sources: a generation uses only labels of the founder generation. *)
Definition labels_ok (founder props : list (string * Q)) : bool :=
  forallb (fun p => bool_decide (p.1 ∈ founder.*1)) props.

(** Modelled from the spec: section 4.1, the Model Parser on a model read from a
    file, absent from the sources: [ModelFormatError] unless every check passes. *)
Definition check_model (m : AdmixtureModel) : outcome AdmixtureModel :=
  match generations m with
  | [] => Raised ModelFormatError
  | founder :: _ =>
      if (0 <? num_samples m)
         && forallb proportions_ok (generations m)
         && forallb (labels_ok founder) (generations m)
      then Returned m
      else Raised ModelFormatError
  end.

(** Modelled from the spec: the seeded pseudo-random stream of section 4.4
    and the draws made from it, absent from the sources. The generator and
    the distributions stay abstract: a weighted choice of a population, the
    choice of the transmitting parent (an individual of the previous
    generation, or [None] for a freshly drawn founder), and the distance to
    the next crossover, exponentially distributed and so positive. *)
Record Sampler : Type := {
  rng : Type;
  seed_rng : Z -> rng;
  draw_population : list (string * Q) -> rng -> string * rng;
  draw_parent : list (string * Q) -> nat -> rng -> option nat * rng;
  draw_gap : GeneticMap -> Z -> rng -> positive * rng;
}.

(** Modelled from the spec: what the simulator reads and the writer writes
    (section 6), absent from the sources: the parsed model behind a path,
    the genetic map of a chromosome in a directory, the files written. *)
Record Store : Type := {
  models : gmap string AdmixtureModel;
  maps : gmap (string * string) GeneticMap;
  files : gmap string string;
}.

Section Simulator.
Context (smp : Sampler).

(** Modelled from the spec: section 4.4 step 1, founder assignment, absent
    from the sources: one label for the whole haplotype, so one breakpoint
    per chromosome, at the chromosome's last mapped position. *)
Definition founder_track (c : string) (m : GeneticMap) (l : string) : track :=
  [{| bp_chrom := c; bp_end := chrom_end m; bp_pop := l |}].

(** Modelled from the spec: section 4.4 step 1, a founder haplotype, absent from the
    sources: the same label on every requested chromosome. *)
Definition founder_hap (cms : list (string * GeneticMap)) (l : string) : haplotype :=
  map (fun cm => (cm.1, founder_track cm.1 cm.2 l)) cms.

(** Modelled from the spec: section 4.4 step 1, a founder, absent from the sources:
    two haplotypes, a label drawn for each. *)
Definition draw_founder (cms : list (string * GeneticMap)) (props : list (string * Q))
    (g : rng smp) : individual * rng smp :=
  let '(l0, g1) := draw_population smp props g in
  let '(l1, g2) := draw_population smp props g1 in
  ((founder_hap cms l0, founder_hap cms l1), g2).

(** Modelled from the spec: section 4.4 step 1, the founder generation, absent from
    the sources: [n] founders drawn one after the other from the stream. *)
Fixpoint founders (cms : list (string * GeneticMap)) (props : list (string * Q))
    (n : nat) (g : rng smp) : list individual * rng smp :=
  match n with
  | O => ([], g)
  | S n' =>
      let '(i, g1) := draw_founder cms props g in
      let '(rest, g2) := founders cms props n' g1 in
      (i :: rest, g2)
  end.

(** Modelled from the spec: the label a track carries at position [x]
    (section 3: the breakpoint that ends at or after [x]), absent from the
    sources. *)
Definition label_at (t : track) (x : Z) : option string :=
  bp_pop <$> List.find (fun b => x <=? bp_end b) t.

(** Modelled from the spec: the part of a parental track that an offspring
    copies between two crossovers, positions in (p, q] (section 4.4 step 2),
    absent from the sources. *)
Definition slice (c : string) (t : track) (p q : Z) : track :=
  (filter (fun b => p < bp_end b < q) t
   ++ match label_at t q with
      | Some l => [{| bp_chrom := c; bp_end := q; bp_pop := l |}]
      | None => []
      end)%list.

(** Modelled from the spec: section 4.4 step 2, the recombination walk,
    absent from the sources: from position [p], draw the distance to the next
    crossover, copy the active parental track up to it, flip to the other
    parental track, until the chromosome end is reached. *)
Fixpoint walk (c : string) (m : GeneticMap) (t_on t_off : track) (fuel : nat)
    (p : Z) (g : rng smp) : option (track * rng smp) :=
  match fuel with
  | O => None
  | S fuel' =>
      let '(d, g1) := draw_gap smp m p g in
      let q := p + Z.pos d in
      if chrom_end m <=? q then Some (slice c t_on p (chrom_end m), g1)
      else
        match walk c m t_off t_on fuel' q g1 with
        | Some (rest, g2) => Some ((slice c t_on p q ++ rest)%list, g2)
        | None => None
        end
  end.

(** Modelled from the spec: section 4.4 step 3, ancestry-track compaction,
    absent from the sources: of two adjacent breakpoints with the same label
    the later one stands for both. *)
Fixpoint compact (t : track) : track :=
  match t with
  | b1 :: ((b2 :: _) as t') =>
      if String.eqb (bp_pop b1) (bp_pop b2) then compact t' else b1 :: compact t'
  | _ => t
  end.

(** Modelled from the spec: one offspring track, walk then compaction
    (section 4.4 steps 2 and 3), absent from the sources. *)
Definition recombine (c : string) (m : GeneticMap) (t0 t1 : track) (g : rng smp)
  : option (track * rng smp) :=
  match walk c m t0 t1 (S (Z.to_nat (chrom_end m - chrom_start m)))
             (chrom_start m) g with
  | Some (t, g') => Some (compact t, g')
  | None => None
  end.

(** Modelled from the spec: one offspring haplotype, chromosome after
    chromosome in the order of the request (section 4.4), absent from the
    sources. *)
Fixpoint gamete (cms : list (string * GeneticMap)) (h0 h1 : haplotype) (g : rng smp)
  : option (haplotype * rng smp) :=
  match cms, h0, h1 with
  | (c, m) :: cms', (_, t0) :: h0', (_, t1) :: h1' =>
      match recombine c m t0 t1 g with
      | Some (t, g1) =>
          match gamete cms' h0' h1' g1 with
          | Some (h, g2) => Some ((c, t) :: h, g2)
          | None => None
          end
      | None => None
      end
  | _, _, _ => Some ([], g)
  end.

(** Modelled from the spec: the transmitting parent of one offspring
    haplotype (section 4.4 step 2 and its failure semantics), absent from the
    sources: an individual of the previous generation or a fresh founder;
    [PedigreeError] when the chosen parent is not there. *)
Definition offspring_hap (cms : list (string * GeneticMap)) (props : list (string * Q))
    (prev : list individual) (g : rng smp) : outcome (haplotype * rng smp) :=
  let '(src, g1) := draw_parent smp props (length prev) g in
  let parent :=
    match src with
    | Some i => match prev !! i with
                | Some p => Returned (p, g1)
                | None => Raised PedigreeError
                end
    | None => Returned (draw_founder cms props g1)
    end in
  match parent with
  | Raised e => Raised e
  | Returned ((h0, h1), g2) =>
      match gamete cms h0 h1 g2 with
      | Some r => Returned r
      | None => Raised (OtherError "recombination walk did not reach the chromosome end")
      end
  end.

(** Modelled from the spec: one individual of a generation, two offspring
    haplotypes with independently drawn parents (section 4.4 step 2), absent
    from the sources. *)
Definition offspring (cms : list (string * GeneticMap)) (props : list (string * Q))
    (prev : list individual) (g : rng smp) : outcome (individual * rng smp) :=
  match offspring_hap cms props prev g with
  | Raised e => Raised e
  | Returned (h0, g1) =>
      match offspring_hap cms props prev g1 with
      | Raised e => Raised e
      | Returned (h1, g2) => Returned ((h0, h1), g2)
      end
  end.

(** Modelled from the spec: section 4.4 step 2, a generation, absent from the
    sources: [n] individuals drawn one after the other, in increasing index. *)
Fixpoint offsprings (cms : list (string * GeneticMap)) (props : list (string * Q))
    (prev : list individual) (n : nat) (g : rng smp)
  : outcome (list individual * rng smp) :=
  match n with
  | O => Returned ([], g)
  | S n' =>
      match offspring cms props prev g with
      | Raised e => Raised e
      | Returned (i, g1) =>
          match offsprings cms props prev n' g1 with
          | Raised e => Raised e
          | Returned (rest, g2) => Returned (i :: rest, g2)
          end
      end
  end.

(** Modelled from the spec: the size of a generation, absent from the
    sources: [popsize] individuals, and one per requested sample in the last
    generation (sections 4.4 and 6). *)
Definition generation_size (popsize nsamples : Z) (later : list (list (string * Q)))
  : nat :=
  match later with
  | [] => Z.to_nat nsamples
  | _ => Z.to_nat popsize
  end.

(** Modelled from the spec: generation after generation, each computed from
    the array of the one before (sections 4.4 and 9), absent from the
    sources. *)
Fixpoint mate (cms : list (string * GeneticMap)) (popsize nsamples : Z)
    (gens : list (list (string * Q))) (prev : list individual) (g : rng smp)
  : outcome (list individual * rng smp) :=
  match gens with
  | [] => Returned (prev, g)
  | props :: gens' =>
      match offsprings cms props prev (generation_size popsize nsamples gens') g with
      | Raised e => Raised e
      | Returned (next, g1) => mate cms popsize nsamples gens' next g1
      end
  end.

(** Modelled from the spec: section 4.4, the Pedigree/Recombination
    Simulator on a parsed model and loaded maps, absent from the sources:
    the stream is seeded once, founders first, then the generations. *)
Definition simulate (model : AdmixtureModel) (cms : list (string * GeneticMap))
    (popsize seed : Z) : outcome (list individual) :=
  match generations model with
  | [] => Raised ModelFormatError
  | props0 :: gens =>
      let '(gen0, g1) :=
        founders cms props0 (generation_size popsize (num_samples model) gens)
                 (seed_rng smp seed) in
      match mate cms popsize (num_samples model) gens gen0 g1 with
      | Raised e => Raised e
      | Returned (last_gen, _) => Returned last_gen
      end
  end.

End Simulator.

(** Modelled from the spec: section 4.2, the Genetic Map Store on the
    requested chromosomes, absent from the sources: a chromosome without a
    map aborts the run with [MapNotFoundError]. *)
Fixpoint load_maps (w : Store) (mapdir : string) (chroms : list string)
  : outcome (list (string * GeneticMap)) :=
  match chroms with
  | [] => Returned []
  | c :: cs =>
      match maps w !! (mapdir, c) with
      | None => Raised MapNotFoundError
      | Some m =>
          match load_maps w mapdir cs with
          | Returned r => Returned ((c, m) :: r)
          | Raised e => Raised e
          end
      end
  end.

(** Modelled from the spec: section 4.1, the Model Parser behind a path,
    absent from the sources. *)
Definition load_model (w : Store) (path : string) : outcome AdmixtureModel :=
  match models w !! path with
  | None => Raised ModelFormatError
  | Some m => check_model m
  end.

(** Modelled from the spec: decimal text of an integer, as the artifact
    carries end positions and haplotype indices (section 6), absent from the
    sources. *)
Definition string_of_Z (z : Z) : string := NilZero.string_of_int (Z.to_int z).

(** Modelled from the spec: reading the decimal text of an integer back
    (section 4.5, round-trip fidelity), absent from the sources. *)
Definition Z_of_string (s : string) : option Z :=
  Z.of_int <$> NilZero.int_of_string s.

(** Modelled from the spec: the identifiers of the simulated samples, absent
    from the sources; the form [Sample_1], [Sample_2], ... is the one the
    example of [karyogram] reads from a breakpoint file. *)
Definition sample_names (n : nat) : list string :=
  map (fun k => "Sample_" ++ string_of_Z (Z.of_nat (S k))) (seq 0 n).

(** Modelled from the spec: [simulate_gt], the simulator as the command
    calls it, absent from the sources: parse the model, load the maps,
    simulate; the result is the sample identifiers and their tracks. *)
Definition simulate_gt (smp : Sampler) (model mapdir : string) (chroms : list string)
    (popsize seed : Z) (w : Store) : outcome (list string * list individual) * Store :=
  (match load_model w model with
   | Raised e => Raised e
   | Returned m =>
       match load_maps w mapdir chroms with
       | Raised e => Raised e
       | Returned cms =>
           match simulate smp m cms popsize seed with
           | Raised e => Raised e
           | Returned inds => Returned (sample_names (length inds), inds)
           end
       end
   end, w).

(** Modelled from the spec: section 3, the SimulatedSample set made of the
    two values [simulate_gt] returns, absent from the sources. *)
Definition simulated_samples (samples : list string) (breakpoints : list individual)
  : list SimulatedSample :=
  zip_with Build_SimulatedSample samples breakpoints.

(** Modelled from the spec: the field separator of a breakpoint line (section 6),
    absent from the sources. *)
Definition tab : ascii := "009".

(** Modelled from the spec: the line terminator of the artifact (section 6), absent
    from the sources. *)
Definition nl : ascii := "010".

(** Modelled from the spec: sections 4.5 and 6, the breakpoint artifact,
    absent from the sources: one section per sample, opened by the line of
    its identifier; then one line per breakpoint with chromosome, end
    position, population label and haplotype index, tab-separated, the first
    haplotype before the second. *)
Definition bp_line (h : Z) (b : AncestryBreakpoint) : string :=
  join tab [bp_chrom b; string_of_Z (bp_end b); bp_pop b; string_of_Z h].

(** Modelled from the spec: section 6, the lines of one haplotype, absent from the
    sources: chromosome after chromosome, breakpoint after breakpoint. *)
Definition hap_lines (h : Z) (hp : haplotype) : list string :=
  flat_map (fun ct => map (bp_line h) ct.2) hp.

(** Modelled from the spec: section 6, the section of one sample, absent from the
    sources: its identifier, then the first and the second haplotype. *)
Definition sample_lines (s : SimulatedSample) : list string :=
  (sample_id s :: hap_lines 0 (sample_haps s).1 ++ hap_lines 1 (sample_haps s).2)%list.

(** Modelled from the spec: section 6, the text of a list of lines, absent from the
    sources: every line closed by a line feed. *)
Fixpoint unlines (ls : list string) : string :=
  match ls with
  | [] => ""
  | l :: ls' => l ++ String nl (unlines ls')
  end.

(** Modelled from the spec: section 4.5, the artifact of a set of samples, absent
    from the sources: one section per sample, in order. *)
Definition serialize (ss : list SimulatedSample) : string :=
  unlines (flat_map sample_lines ss).

(** Modelled from the spec: section 4.5, [write_breakpoints], the
    Breakpoint Writer, absent from the sources: the artifact goes to the
    file [out.bp] and the tracks are handed on. *)
Definition write_breakpoints (samples : list string) (breakpoints : list individual)
    (out : string) (w : Store) : outcome (list individual) * Store :=
  (Returned breakpoints,
   {| models := models w;
      maps := maps w;
      files := <[out ++ ".bp" := serialize (simulated_samples samples breakpoints)]>
                 (files w) |}).

(** Modelled from the spec: reading the artifact back (section 4.5,
    round-trip fidelity), absent from the sources: lines, then one token per
    line, then sections, then the two haplotypes of a section, the lines of
    one chromosome forming one track. *)
Inductive token : Type :=
| Header (id : string)
| Data (h : Z) (b : AncestryBreakpoint).

(** Modelled from the spec: the lines of an artifact (section 4.5, round-trip
    fidelity), absent from the sources: the text must end with a line feed. *)
Definition lines (s : string) : option (list string) :=
  match reverse (split nl s) with
  | EmptyString :: r => Some (reverse r)
  | _ => None
  end.

(** Modelled from the spec: one line read back (sections 4.5 and 6), absent from the
    sources: no tab makes it the identifier of a section, four fields a
    breakpoint with its haplotype index. *)
Definition parse_line (l : string) : option token :=
  match split tab l with
  | [id] => Some (Header id)
  | [c; e; pop; h] =>
      match Z_of_string e, Z_of_string h with
      | Some e, Some h => Some (Data h {| bp_chrom := c; bp_end := e; bp_pop := pop |})
      | _, _ => None
      end
  | _ => None
  end.

(** Modelled from the spec: every line read back, absent from the sources (section
    4.5, round-trip fidelity). *)
Fixpoint parse_tokens (ls : list string) : option (list token) :=
  match ls with
  | [] => Some []
  | l :: ls' =>
      match parse_line l, parse_tokens ls' with
      | Some t, Some ts => Some (t :: ts)
      | _, _ => None
      end
  end.

(** Modelled from the spec: the tokens grouped into sections, absent from the sources
    (section 6): the breakpoints before the first identifier, then each
    identifier with the breakpoints up to the next one. *)
Fixpoint sections (toks : list token)
  : list (Z * AncestryBreakpoint) * list (string * list (Z * AncestryBreakpoint)) :=
  match toks with
  | [] => ([], [])
  | Data h b :: r => let '(d, secs) := sections r in ((h, b) :: d, secs)
  | Header id :: r => let '(d, secs) := sections r in ([], (id, d) :: secs)
  end.

(** Modelled from the spec: the breakpoints of a haplotype grouped into tracks,
    absent from the sources (section 3): consecutive breakpoints on one
    chromosome form its track. *)
Fixpoint group_chroms (bps : list AncestryBreakpoint) : haplotype :=
  match bps with
  | [] => []
  | b :: r =>
      match group_chroms r with
      | (c, t) :: hs =>
          if String.eqb c (bp_chrom b) then (c, b :: t) :: hs
          else (bp_chrom b, [b]) :: (c, t) :: hs
      | [] => [(bp_chrom b, [b])]
      end
  end.

(** Modelled from the spec: the haplotype of index [k] in a section, absent from the
    sources (section 6). *)
Definition hap_of (k : Z) (d : list (Z * AncestryBreakpoint)) : haplotype :=
  group_chroms (map snd (filter (fun x => x.1 = k) d)).

(** Modelled from the spec: a section read back as a sample, absent from the
    sources (sections 3 and 6): the haplotype index is 0 or 1. *)
Definition section_sample (sec : string * list (Z * AncestryBreakpoint))
  : option SimulatedSample :=
  if forallb (fun x => (x.1 =? 0) || (x.1 =? 1)) sec.2
  then Some {| sample_id := sec.1; sample_haps := (hap_of 0 sec.2, hap_of 1 sec.2) |}
  else None.

(** Modelled from the spec: every section read back as a sample, absent from the
    sources (section 4.5). *)
Fixpoint section_samples (secs : list (string * list (Z * AncestryBreakpoint)))
  : option (list SimulatedSample) :=
  match secs with
  | [] => Some []
  | sec :: secs' =>
      match section_sample sec, section_samples secs' with
      | Some s, Some ss => Some (s :: ss)
      | _, _ => None
      end
  end.

(** Modelled from the spec: the parser of the breakpoint artifact, absent
    from the sources (section 4.5: the artifact must be re-parseable). *)
Definition parse_breakpoints (artifact : string) : option (list SimulatedSample) :=
  match lines artifact with
  | None => None
  | Some ls =>
      match parse_tokens ls with
      | None => None
      | Some toks =>
          match sections toks with
          | ([], secs) => section_samples secs
          | _ => None
          end
      end
  end.

(** Modelled from the spec: the invariants of a breakpoint sequence
    (sections 3 and 8), absent from the sources: end positions strictly
    increasing, the last one at the chromosome's last mapped position, and no
    two neighbours with the same label. *)
Definition increasing (t : track) : Prop := StronglySorted Z.lt (bp_end <$> t).

(** Modelled from the spec: section 8, coverage: the last breakpoint of a track ends
    at [e]; absent from the sources. *)
Definition ends_at (e : Z) (t : track) : Prop := last (bp_end <$> t) = Some e.

(** Modelled from the spec: section 8, compaction: no two consecutive breakpoints
    share a label; absent from the sources. *)
Definition compacted (t : track) : Prop :=
  forall i b1 b2, t !! i = Some b1 -> t !! S i = Some b2 -> bp_pop b1 <> bp_pop b2.

(** Modelled from the spec: section 3, the breakpoints of the track of
    chromosome [c], absent from the sources: each is on [c] and carries a
    label of the kind [L] (any label, or a label that can be written). *)
Definition labelled (L : string -> Prop) (c : string) (t : track) : Prop :=
  Forall (fun b => bp_chrom b = c /\ L (bp_pop b)) t.

(** Modelled from the spec: the invariants of section 8 on the track of a
    chromosome, absent from the sources: coverage and compaction. *)
Definition track_ok (L : string -> Prop) (cm : string * GeneticMap)
    (ct : string * track) : Prop :=
  ct.1 = cm.1 /\ increasing ct.2 /\ ends_at (chrom_end cm.2) ct.2 /\ compacted ct.2
  /\ labelled L cm.1 ct.2.

(** Modelled from the spec: the invariants of section 8 on a haplotype, absent from
    the sources: one track per requested chromosome, in order, each within
    them. *)
Definition hap_ok (L : string -> Prop) (cms : list (string * GeneticMap))
    (h : haplotype) : Prop :=
  Forall2 (track_ok L) cms h.

(** Modelled from the spec: the invariants of section 8 on both haplotypes of
    an individual, absent from the sources. *)
Definition individual_ok (L : string -> Prop) (cms : list (string * GeneticMap))
    (i : individual) : Prop :=
  hap_ok L cms i.1 /\ hap_ok L cms i.2.

(** Modelled from the spec: section 7, what a stage may do, absent from the
    sources: return a value with a property, or raise one of the errors of
    the taxonomy, never for a walk that did not end. *)
Definition on_return {A : Type} (P : A -> Prop) (r : outcome A) : Prop :=
  match r with
  | Returned a => P a
  | Raised e => forall name, e <> OtherError name
  end.

(** Modelled from the spec: what an identifier, a chromosome name or a
    population label must be for a line-and-tab format: free of both
    separators (section 6), absent from the sources. *)
Definition is_token (s : string) : bool :=
  forallb (fun a => negb (Ascii.eqb a tab) && negb (Ascii.eqb a nl))
          (list_ascii_of_string s).

(** Modelled from the spec: a well-formed track of chromosome [c] and a
    well-formed haplotype (section 3), absent from the sources: the track is
    not empty, its breakpoints are on [c], its labels are tokens; two
    neighbouring tracks are on different chromosomes. *)
Definition wf_track (ct : string * track) : Prop :=
  ct.2 <> [] /\ is_token ct.1 = true /\
  Forall (fun b => bp_chrom b = ct.1 /\ is_token (bp_pop b) = true) ct.2.

(** Modelled from the spec: section 3, one track per chromosome of a haplotype,
    absent from the sources: no two neighbouring tracks on one chromosome. *)
Fixpoint adjacent_distinct (cs : list string) : Prop :=
  match cs with
  | c1 :: ((c2 :: _) as rest) => c1 <> c2 /\ adjacent_distinct rest
  | _ => True
  end.

(** Modelled from the spec: section 3, a well-formed haplotype, absent from the
    sources: well-formed tracks, neighbours on different chromosomes. *)
Definition wf_hap (hp : haplotype) : Prop :=
  Forall wf_track hp /\ adjacent_distinct (hp.*1).

(** Modelled from the spec: section 3, a well-formed sample, absent from the
    sources: a token for identifier and two well-formed haplotypes. *)
Definition wf_sample (s : SimulatedSample) : Prop :=
  is_token (sample_id s) = true /\ wf_hap (sample_haps s).1 /\ wf_hap (sample_haps s).2.

(** Modelled from the spec: the breakpoints of a haplotype in the order of
    the artifact, and the tokens and the section a sample is written as
    (sections 4.5 and 6), absent from the sources. *)
Definition hap_bps (hp : haplotype) : list AncestryBreakpoint := flat_map snd hp.

(** Modelled from the spec: section 6, the breakpoints of a section with their
    haplotype indices, absent from the sources. *)
Definition sample_data (s : SimulatedSample) : list (Z * AncestryBreakpoint) :=
  (map (pair 0) (hap_bps (sample_haps s).1)
   ++ map (pair 1) (hap_bps (sample_haps s).2))%list.

(** Modelled from the spec: section 6, the tokens a sample is written as, absent
    from the sources. *)
Definition sample_tokens (s : SimulatedSample) : list token :=
  (Header (sample_id s)
   :: map (Data 0) (hap_bps (sample_haps s).1)
   ++ map (Data 1) (hap_bps (sample_haps s).2))%list.

(** Modelled from the spec: the simulator followed by the Breakpoint Writer,
    as [simgenotype] chains them (section 2, data flow), absent from the
    sources. *)
Definition simulate_and_write (smp : Sampler) (model mapdir : string)
    (chroms : list string) (popsize seed : Z) (out : string) (w : Store)
  : outcome (list individual) * Store :=
  match simulate_gt smp model mapdir chroms popsize seed w with
  | (Raised e, w') => (Raised e, w')
  | (Returned (samples, breakpoints), w') => write_breakpoints samples breakpoints out w'
  end.

End SimGenotype.

(** ** Concrete instances, to run the definitions on *)
Module Demo.
Import Py Cli.

(** A host that keeps the names of the files written; validation rejects an
    empty model path, everything else returns. *)
Definition toy_host : Host := {|
  World := list string;
  Samples := list string;
  Breakpoints := list Z;
  Float := Z;
  Logger := string;
  fsub := Z.sub;
  fstr := SimGenotype.string_of_Z;
  host_time := fun w => (Z.of_nat (length w), w);
  host_print := fun _ w => w;
  host_getLogger := fun name w => (name, w);
  host_basicConfig := fun _ _ w => w;
  host_PlotKaryogram := fun _ _ out _ _ _ w => (Returned tt, (w ++ [out])%list);
  host_validate_params := fun model _ _ _ _ _ _ w =>
    (if String.eqb model "" then Raised ModelFormatError else Returned tt, w);
  host_simulate_gt := fun _ _ _ _ _ w => (Returned (["Sample_1"; "Sample_2"], [1; 2]), w);
  host_write_breakpoints := fun _ b out w => (Returned (map Z.succ b), (w ++ [(out ++ ".bp")%string])%list);
  host_output_vcf := fun _ _ _ _ out w => (Returned tt, (w ++ [(out ++ ".vcf")%string])%list);
  host_simulate_pt := fun _ _ _ _ _ _ _ _ _ _ w => (Returned tt, w);
  host_transform_haps := fun _ _ _ _ _ _ _ _ _ w => (Returned tt, w);
|}.

(** A linear congruential generator and draws made from its high bits: the
    population uniformly among the labels, the parent among the previous
    generation or (one time in four) a fresh founder, the distance to the
    next crossover between 1 and 60. *)
Definition lcg_next (x : Z) : Z := (1103515245 * x + 12345) mod 2147483648.

Definition lcg_bits (x : Z) : Z := x / 65536.

Definition lcg : SimGenotype.Sampler := {|
  SimGenotype.rng := Z;
  SimGenotype.seed_rng := fun s => s mod 2147483648;
  SimGenotype.draw_population := fun props g =>
    (nth (Z.to_nat (lcg_bits g mod Z.of_nat (length props))) (props.*1) "", lcg_next g);
  SimGenotype.draw_parent := fun props n g =>
    (if (lcg_bits g mod 4 =? 0) || (n =? 0)%nat then None
     else Some (Z.to_nat (lcg_bits g mod Z.of_nat n)), lcg_next g);
  SimGenotype.draw_gap := fun m p g => (Z.to_pos (1 + lcg_bits g mod 60), lcg_next g);
|}.

(** Two populations in equal parts over three generations, three samples;
    maps for the chromosomes 1 and 2. *)
Definition toy_model : SimGenotype.AdmixtureModel := {|
  SimGenotype.num_samples := 3;
  SimGenotype.generations :=
    [[("CEU", 1 # 2); ("YRI", 1 # 2)]; [("CEU", 1 # 2); ("YRI", 1 # 2)];
     [("CEU", 1 # 2); ("YRI", 1 # 2)]]%Q;
|}.

Definition toy_map1 : SimGenotype.GeneticMap :=
  [(0, 0%Q); (40, (1 # 2)%Q); (100, 2%Q)].

Definition toy_map2 : SimGenotype.GeneticMap := [(10, 0%Q); (80, 1%Q)].

Definition toy_store : SimGenotype.Store := {|
  SimGenotype.models := {["model.dat" := toy_model]};
  SimGenotype.maps := {[("map", "1") := toy_map1; ("map", "2") := toy_map2]};
  SimGenotype.files := ∅;
|}.

(** The samples and tracks of a run on these, seed 7 and four individuals
    per generation. *)
Definition toy_samples : list string :=
  Eval vm_compute in
    match (SimGenotype.simulate_gt lcg "model.dat" "map" ["1"; "2"] 4 7 toy_store).1 with
    | Returned r => r.1
    | Raised _ => []
    end.

Definition toy_breakpoints : list SimGenotype.individual :=
  Eval vm_compute in
    match (SimGenotype.simulate_gt lcg "model.dat" "map" ["1"; "2"] 4 7 toy_store).1 with
    | Returned r => r.2
    | Raised _ => []
    end.






End Demo.

(** * Properties *)

(** ** Facts on the builtins *)
Module PyFacts.
Import Py Cli.


Lemma split_free a s : free a s = true -> split a s = [s].
Proof.
  induction s as [|c s IH]; simpl; [done|].
  intros [Hc Hs]%andb_prop. apply negb_true_iff in Hc. rewrite Hc.
  by rewrite IH.
Qed.

Lemma split_app_sep a s t :
  free a s = true -> split a (s ++ String a t) = s :: split a t.
Proof.
  induction s as [|c s IH]; simpl.
  - intros _. by rewrite Ascii.eqb_refl.
  - intros [Hc Hs]%andb_prop. apply negb_true_iff in Hc. rewrite Hc.
    by rewrite IH.
Qed.

Lemma split_join a (parts : list string) :
  parts <> [] -> Forall (fun s => free a s = true) parts ->
  split a (join a parts) = parts.
Proof.
  unfold join. induction parts as [|s [|s' parts] IH]; [done| |].
  - intros _ Hf. simpl. apply split_free. by inversion Hf.
  - intros _ Hf. inversion Hf as [|? ? Hs Hf']; subst.
    change (String.concat (String a "") (s :: s' :: parts))
      with (s ++ String a (String.concat (String a "") (s' :: parts))).
    rewrite split_app_sep by done. f_equal. by apply IH.
Qed.

Lemma free_app a s t : free a (s ++ t) = free a s && free a t.
Proof. induction s as [|c s IH]; simpl; [done|]. by rewrite IH, andb_assoc. Qed.

Lemma dict_pairs_from (pairs : list (string * string)) (m : gmap string string) :
  fold_left dict_step (map (fun p => [p.1; p.2]) pairs) (Returned m)
  = Returned (fold_left (fun m p => <[p.1 := p.2]> m) pairs m).
Proof.
  revert m. induction pairs as [|p pairs IH]; intros m; simpl; [done|].
  apply IH.
Qed.

Lemma linebreak_len_plain c t :
  negb (is_break1 c) && negb (Nat.eqb (nat_of_ascii c) 194)
    && negb (Nat.eqb (nat_of_ascii c) 226) = true ->
  linebreak_len (String c t) = 0%nat.
Proof.
  intros [[H1 H2]%andb_prop H3]%andb_prop.
  apply negb_true_iff in H1, H2, H3.
  unfold linebreak_len. rewrite H1, H2, H3.
  destruct t as [|d [|e u]]; reflexivity.
Qed.

Lemma splitlines_line l rest :
  plain_line l = true ->
  splitlines_from 0 (l ++ String "010" rest) = l :: splitlines_from 0 rest.
Proof.
  unfold plain_line. induction l as [|c l IH]; intros Hl.
  - by destruct rest.
  - simpl in Hl. apply andb_prop in Hl as [Hc Hl].
    change ((String c l) ++ String "010" rest)
      with (String c (l ++ String "010" rest)).
    cbn [splitlines_from]. rewrite (linebreak_len_plain c _ Hc).
    by rewrite (IH Hl).
Qed.

Lemma splitlines_samples_text ls :
  Forall (fun l => plain_line l = true) ls -> splitlines (samples_text ls) = ls.
Proof.
  unfold splitlines. induction 1 as [|l ls Hl Hls IH]; [done|].
  cbn [samples_text]. rewrite splitlines_line by done. by rewrite IH.
Qed.

End PyFacts.

(** ** The commands of [__main__.py] *)
Module CliFacts.
Import Py Cli PyFacts.


Lemma simgenotype_run (H : Host) (invcf sample_info model mapdir out : string)
    (popsize : Z) (seed : option Z) (chroms : string) (only_breakpoint verbose : bool)
    (w : World H) :
  let res := run (simgenotype invcf sample_info model mapdir out popsize seed chroms
                    only_breakpoint verbose) w in
  pipeline_run invcf sample_info model mapdir out popsize seed (split "," chroms)
    only_breakpoint res.1 (stage_events (trace res.2)).
Proof.
  unfold_commands. unfold stage_events.
  run_host;
    try first [ by eapply run_invalid | by eapply run_simulation_failed
              | by eapply run_write_failed ].
  all: destruct only_breakpoint; simpl; run_host; destruct verbose; simpl;
    first [ by eapply run_only_breakpoint | by eapply run_with_vcf ].
Qed.


Lemma elem_of_stage_events (H : Host) (ev : event H) (tr : list (event H)) :
  ev ∈ tr -> is_stage ev = true -> ev ∈ stage_events tr.
Proof.
  intros Hin Hs. apply list_elem_of_In, filter_In. split; [|done].
  by apply list_elem_of_In.
Qed.





(** C2. In every run of [simgenotype], a call of [simulate_gt] or of
    [write_breakpoints] comes after a call of [validate_params] that returned;
    and when [validate_params] raises, the run ends there with that
    exception: nothing was simulated, nothing was written, and the world is
    as the validation left it. *)
Theorem validation_precedes_simulation (H : Host)
    (invcf sample_info model mapdir out : string) (popsize : Z) (seed : option Z)
    (chroms : string) (only_breakpoint verbose : bool) (w : World H) :
  let res := run (simgenotype invcf sample_info model mapdir out popsize seed chroms
                    only_breakpoint verbose) w in
  let calls := stage_events (trace res.2) in
  (forall i ev, calls !! i = Some ev ->
     is_simulate_gt ev || is_write_breakpoints ev = true ->
     exists j ev', (j < i)%nat /\ calls !! j = Some ev' /\ validated ev' = true)
  /\ (forall t0 w0 e w1,
        host_time H w = (t0, w0) ->
        host_validate_params H model mapdir (split "," chroms) popsize invcf
          sample_info only_breakpoint w0 = (Raised e, w1) ->
        res = (Raised e,
               {| world := w1;
                  trace := [Ev_time t0;
                            Ev_validate_params model mapdir (split "," chroms) popsize
                              invcf sample_info only_breakpoint (Raised e)] |})).
Proof.
  intros res calls. split.
  - pose proof (simgenotype_run H invcf sample_info model mapdir out popsize seed
                  chroms only_breakpoint verbose w) as Hrun.
    simpl in Hrun. fold res in Hrun. fold calls in Hrun.
    intros i ev Hi Hev.
    inversion Hrun as [e Hres Htr|e Hres Htr|s b e Hres Htr|s b wr Hob Hres Htr
                       |s b wr r Hob Hres Htr];
      rewrite <- Htr in Hi;
      (destruct i as [|i]; simpl in Hi;
       [injection Hi as <-; discriminate Hev|]);
      try (rewrite lookup_nil in Hi; discriminate Hi);
      eexists 0%nat, _; (split; [lia|]); split; reflexivity.
  - intros t0 w0 e w1 Ht Hv. unfold res. unfold_commands. simpl.
    rewrite Ht. simpl. rewrite Hv. reflexivity.
Qed.

Lemma validation_precedes_simulation_witness :
  run (H := Demo.toy_host)
    (simgenotype "ref.vcf" "info.tab" "" "map" "sim" 10000 None "1,2" false true) []
  = (Raised ModelFormatError,
     {| world := ([] : World Demo.toy_host);
        trace := [Ev_time (H := Demo.toy_host) 0;
                  Ev_validate_params "" "map" ["1"; "2"] 10000 "ref.vcf" "info.tab"
                    false (Raised ModelFormatError)] |}).
Proof.
  destruct (validation_precedes_simulation Demo.toy_host "ref.vcf" "info.tab" ""
              "map" "sim" 10000 None "1,2" false true []) as [_ Hfail].
  apply (Hfail 0 [] ModelFormatError []); reflexivity.
Defined.

(** C7. Every run of [simgenotype] executes its stages in the order
    [validate_params], [simulate_gt], [write_breakpoints] and, unless
    [only_breakpoint] is set, [output_vcf]: the run is one of the five runs
    of [pipeline_run]. [validate_params] is always called, first and on the
    arguments of the command line; a stage that returned is followed by the
    next stage; a stage that raised is the last call, and its exception is
    the outcome of the run. So the calls of a run are a prefix of the
    sequence, never an empty one, and all of it when the run returns.
    [write_breakpoints] receives the two values [simulate_gt] returned, and
    [output_vcf] receives the value [write_breakpoints] returned together
    with the model, the reference VCF, the sample-info file and the output
    prefix. *)
Theorem simgenotype_stage_order (H : Host)
    (invcf sample_info model mapdir out : string) (popsize : Z) (seed : option Z)
    (chroms : string) (only_breakpoint verbose : bool) (w : World H) :
  let res := run (simgenotype invcf sample_info model mapdir out popsize seed chroms
                    only_breakpoint verbose) w in
  let calls := stage_events (trace res.2) in
  let stages := (["validate_params"; "simulate_gt"; "write_breakpoints"]
                 ++ if only_breakpoint then [] else ["output_vcf"])%list in
  pipeline_run invcf sample_info model mapdir out popsize seed (split "," chroms)
    only_breakpoint res.1 calls
  /\ (exists r,
        head calls
        = Some (Ev_validate_params model mapdir (split "," chroms) popsize invcf
                  sample_info only_breakpoint r))
  /\ (forall i ev,
        calls !! i = Some ev -> raised_by ev = None -> (S i < length stages)%nat ->
        exists ev', calls !! S i = Some ev' /\ stages !! S i = Some (call_name ev'))
  /\ (forall i ev e,
        calls !! i = Some ev -> raised_by ev = Some e ->
        res.1 = Raised e /\ length calls = S i)
  /\ map call_name calls `prefix_of` stages
  /\ (res.1 = Returned tt -> map call_name calls = stages)
  /\ (forall samples breakpoints o r,
        Ev_write_breakpoints samples breakpoints o r ∈ trace res.2 ->
        o = out /\
        Ev_simulate_gt model mapdir (split "," chroms) popsize seed
          (Returned (samples, breakpoints)) ∈ trace res.2)
  /\ (forall b m i si o r,
        Ev_output_vcf b m i si o r ∈ trace res.2 ->
        m = model /\ i = invcf /\ si = sample_info /\ o = out /\
        exists samples breakpoints,
          calls = [Ev_validate_params model mapdir (split "," chroms) popsize invcf
                     sample_info only_breakpoint (Returned tt);
                   Ev_simulate_gt model mapdir (split "," chroms) popsize seed
                     (Returned (samples, breakpoints));
                   Ev_write_breakpoints samples breakpoints out (Returned b);
                   Ev_output_vcf b model invcf sample_info out r]).
Proof.
  intros res calls stages.
  pose proof (simgenotype_run H invcf sample_info model mapdir out popsize seed
                chroms only_breakpoint verbose w) as Hrun.
  simpl in Hrun. fold res in Hrun. fold calls in Hrun.
  assert (forall ev, ev ∈ trace res.2 -> is_stage ev = true -> ev ∈ calls) as Hcalls.
  { intros ev. apply elem_of_stage_events. }
  assert (forall ev, ev ∈ calls -> ev ∈ trace res.2) as Hback.
  { intros ev Hin. apply list_elem_of_In in Hin. apply filter_In in Hin as [Hin _].
    by apply list_elem_of_In. }
  split; [exact Hrun|].
  split; [|split; [|split; [|split; [|split; [|split]]]]].
  - inversion Hrun; by eexists.
  - unfold stages. intros i ev Hi Hev Hlen.
    inversion Hrun as [e Hres Htr|e Hres Htr|s b e Hres Htr|s b wr Hob Hres Htr
                       |s b wr r Hob Hres Htr];
      rewrite <- Htr in Hi; try subst only_breakpoint;
      destruct i as [|[|[|[|i]]]]; simpl in Hi, Hlen; try discriminate Hi; try lia;
      injection Hi as <-; try discriminate Hev;
      by eexists.
  - intros i ev e' Hi Hev.
    inversion Hrun as [e Hres Htr|e Hres Htr|s b e Hres Htr|s b wr Hob Hres Htr
                       |s b wr r Hob Hres Htr];
      rewrite <- Htr in Hi;
      destruct i as [|[|[|[|i]]]]; simpl in Hi; try discriminate Hi;
      injection Hi as <-; try discriminate Hev;
      simpl in Hev; try (by injection Hev as ->).
    split; [|done]. clear -Hev. destruct res.1 as [[]|e'']; [discriminate Hev|].
    by injection Hev as ->.
  - unfold stages.
    inversion Hrun as [e Hres Htr|e Hres Htr|s b e Hres Htr|s b wr Hob Hres Htr
                       |s b wr r Hob Hres Htr]; simpl; try subst only_breakpoint.
    + by eexists.
    + by eexists.
    + by eexists.
    + by exists [].
    + by exists [].
  - unfold stages. intros Hret.
    inversion Hrun as [e Hres Htr|e Hres Htr|s b e Hres Htr|s b wr Hob Hres Htr
                       |s b wr r Hob Hres Htr]; simpl; try subst only_breakpoint;
      try done; congruence.
  - intros samples breakpoints o r Hin. apply Hcalls in Hin; [|done].
    inversion Hrun as [e Hres Htr|e Hres Htr|s b e Hres Htr|s b wr Hob Hres Htr
                       |s b wr r' Hob Hres Htr];
      rewrite <- Htr in Hin;
      repeat (apply elem_of_cons in Hin as [Hin|Hin]; [try discriminate Hin|]);
      try (by apply elem_of_nil in Hin);
      injection Hin as -> -> -> ->; (split; [done|]);
      apply Hback; rewrite <- Htr; apply list_elem_of_In; simpl; tauto.
  - intros b m i si o r Hin. apply Hcalls in Hin; [|done].
    inversion Hrun as [e Hres Htr|e Hres Htr|s b' e Hres Htr|s b' wr Hob Hres Htr
                       |s b' wr r' Hob Hres Htr];
      rewrite <- Htr in Hin;
      repeat (apply elem_of_cons in Hin as [Hin|Hin]; [try discriminate Hin|]);
      try (by apply elem_of_nil in Hin).
    injection Hin as -> -> -> -> -> ->. repeat (split; [done|]).
    by exists s, b'.
Qed.

Lemma simgenotype_stage_order_witness :
  map call_name
    (stage_events
       (trace (run (H := Demo.toy_host)
                 (simgenotype "ref.vcf" "info.tab" "model.dat" "map" "sim" 10000
                    (Some 7) "1,2" false true) []).2))
  = ["validate_params"; "simulate_gt"; "write_breakpoints"; "output_vcf"].
Proof.
  destruct (simgenotype_stage_order Demo.toy_host "ref.vcf" "info.tab" "model.dat"
              "map" "sim" 10000 (Some 7) "1,2" false true [])
    as (_ & _ & _ & _ & _ & Hret & _).
  apply Hret. reflexivity.
Defined.

(** C8. In [simphenotype] and in [transform] alike: with both a [--sample]
    and a [--samples-file] the command raises a usage error and neither
    [simulate_pt] nor [transform_haps] is called; with the file alone the
    subset handed on is [read().splitlines()] of the file; with neither it is
    [None]; with [--sample] alone it is the list of the samples given. The
    lines of a file that holds one plain identifier per line, each closed by
    a line feed, are these identifiers in order. *)
Theorem samples_option_handling (H : Host) (genotypes haplotypes : string)
    (replications : Z) (heritability prevalence : option (Float H))
    (region : option string) (s : string) (ss : list string) (f : TextFile)
    (haplotype_ids : list string) (chunk_size : option Z) (discard_missing : bool)
    (output verbosity : string) (w : World H) :
  let pt samples samples_file :=
    run (simphenotype genotypes haplotypes replications heritability prevalence region
           samples samples_file chunk_size output verbosity) w in
  let th samples samples_file :=
    run (transform genotypes haplotypes region samples samples_file haplotype_ids
           chunk_size discard_missing output verbosity) w in
  ((exists msg, (pt (s :: ss) (Some f)).1 = Raised (UsageError msg))
   /\ pt_samples (trace (pt (s :: ss) (Some f)).2) = []
   /\ (exists msg, (th (s :: ss) (Some f)).1 = Raised (UsageError msg))
   /\ th_samples (trace (th (s :: ss) (Some f)).2) = [])
  /\ (pt_samples (trace (pt [] (Some f)).2) = [Some (splitlines (read f))]
      /\ th_samples (trace (th [] (Some f)).2) = [Some (splitlines (read f))])
  /\ (pt_samples (trace (pt [] None).2) = [None]
      /\ th_samples (trace (th [] None).2) = [None])
  /\ (pt_samples (trace (pt (s :: ss) None).2) = [Some (s :: ss)]
      /\ th_samples (trace (th (s :: ss) None).2) = [Some (s :: ss)])
  /\ (forall ls, Forall (fun l => plain_line l = true) ls ->
        splitlines (samples_text ls) = ls).
Proof.
  intros pt th. unfold pt, th.
  repeat split; try (eexists; unfold_commands; run_host; reflexivity);
    try (unfold_commands; run_host; reflexivity).
  apply splitlines_samples_text.
Qed.

Lemma samples_option_handling_witness :
  splitlines (samples_text ["HG00096"; "HG00097"; "NA12878"])
  = ["HG00096"; "HG00097"; "NA12878"].
Proof.
  apply (samples_option_handling Demo.toy_host "g.vcf" "h.hap" 1 None None None
           "HG00096" [] {| read := "" |} [] None false "-" "ERROR" []).
  repeat constructor.
Defined.

(** C9. Whatever the command line of [simphenotype], every call of
    [simulate_pt] it makes has [chunk_size] equal to [None]: one such call,
    or none when the command ends in the usage error. The function itself
    hands on the [chunk_size] it is given, and [transform], which declares
    the option, hands [transform_haps] the value of [--chunk-size]. *)
Theorem simphenotype_chunk_size_none (H : Host) (p : simphenotype_params (H := H))
    (q : transform_params) (w : World H) :
  let both (samples : list string) (samples_file : option TextFile) :=
    truthy samples && bool_decide (is_Some samples_file) in
  pt_chunk_sizes (trace (run (simphenotype_command p) w).2)
  = (if both (sp_samples p) (sp_samples_file p) then [] else [None])
  /\ Forall (fun c => c = None) (pt_chunk_sizes (trace (run (simphenotype_command p) w).2))
  /\ (forall chunk_size,
        pt_chunk_sizes
          (trace (run (simphenotype (sp_genotypes p) (sp_haplotypes p)
                         (sp_replications p) (sp_heritability p) (sp_prevalence p)
                         (sp_region p) (sp_samples p) (sp_samples_file p) chunk_size
                         (sp_output p) (sp_verbosity p)) w).2)
        = (if both (sp_samples p) (sp_samples_file p) then [] else [chunk_size]))
  /\ th_chunk_sizes (trace (run (transform_command q) w).2)
     = (if both (tp_samples q) (tp_samples_file q) then [] else [tp_chunk_size q]).
Proof.
  intros both.
  assert (forall chunk_size,
        pt_chunk_sizes
          (trace (run (simphenotype (sp_genotypes p) (sp_haplotypes p)
                         (sp_replications p) (sp_heritability p) (sp_prevalence p)
                         (sp_region p) (sp_samples p) (sp_samples_file p) chunk_size
                         (sp_output p) (sp_verbosity p)) w).2)
        = (if both (sp_samples p) (sp_samples_file p) then [] else [chunk_size]))
    as Hfun.
  { intros chunk_size. unfold both.
    destruct p as [g h r he pr reg [|s ss] [f|] o v];
      unfold_commands; run_host; reflexivity. }
  assert (pt_chunk_sizes (trace (run (simphenotype_command p) w).2)
          = (if both (sp_samples p) (sp_samples_file p) then [] else [None])) as Hpt.
  { unfold both. destruct p as [g h r he pr reg [|s ss] [f|] o v];
      unfold_commands; run_host; reflexivity. }
  split; [exact Hpt|]. split; [|split; [exact Hfun|]].
  - rewrite Hpt. destruct (both _ _); by repeat constructor.
  - unfold both. destruct q as [g h reg [|s ss] [f|] ids cs dm o v];
      unfold_commands; run_host; reflexivity.
Qed.

Lemma colors_arg_items (pairs : list (string * string)) :
  pairs <> [] ->
  Forall (fun p => no_sep p.1 = true /\ no_sep p.2 = true) pairs ->
  map (split ":") (split "," (colors_arg pairs)) = map (fun p => [p.1; p.2]) pairs.
Proof.
  intros Hne Hf. unfold colors_arg.
  rewrite split_join.
  - rewrite map_map. apply map_ext_Forall.
    eapply Forall_impl; [exact Hf|]. intros [l c] [Hl Hc]; simpl in *.
    unfold no_sep in *. apply andb_prop in Hl as [_ Hl], Hc as [_ Hc].
    apply (split_join ":" [l; c]); [done|]. by repeat constructor.
  - by destruct pairs.
  - apply Forall_map. eapply Forall_impl; [exact Hf|]. intros [l c] [Hl Hc]; simpl in *.
    unfold no_sep in *. apply andb_prop in Hl as [Hl _], Hc as [Hc _].
    unfold join. simpl. rewrite free_app. simpl. rewrite Hl. exact Hc.
Qed.

Lemma colors_dict_snoc pairs p :
  colors_dict (pairs ++ [p]) = <[p.1 := p.2]> (colors_dict pairs).
Proof. unfold colors_dict. by rewrite fold_left_app. Qed.

Lemma colors_dict_last (pairs : list (string * string)) i l c :
  pairs !! i = Some (l, c) ->
  (forall j c', (i < j)%nat -> pairs !! j <> Some (l, c')) ->
  colors_dict pairs !! l = Some c.
Proof.
  revert i. induction pairs as [|p pairs IH] using rev_ind; intros i Hi Hlast; [done|].
  rewrite colors_dict_snoc.
  destruct (decide (i = length pairs)) as [->|Hne].
  - rewrite lookup_app_r, Nat.sub_diag in Hi by lia. simpl in Hi. injection Hi as ->.
    simpl. by rewrite lookup_insert_eq.
  - assert (i < length pairs)%nat as Hlt.
    { apply lookup_lt_Some in Hi. rewrite length_app in Hi. simpl in Hi. lia. }
    rewrite lookup_app_l in Hi by done.
    destruct p as [l' c']. simpl.
    destruct (decide (l' = l)) as [->|Hl].
    + exfalso. apply (Hlast (length pairs) c' Hlt).
      by rewrite lookup_app_r, Nat.sub_diag by lia.
    + rewrite lookup_insert_ne by done. apply (IH i Hi).
      intros j c'' Hj Hpj. apply (Hlast j c'' Hj).
      by rewrite lookup_app_l by (by eapply lookup_lt_Some).
Qed.

Lemma colors_dict_NoDup (pairs : list (string * string)) l c :
  NoDup (pairs.*1) -> (l, c) ∈ pairs -> colors_dict pairs !! l = Some c.
Proof.
  intros Hnd [i Hi]%list_elem_of_lookup.
  apply (colors_dict_last pairs i l c Hi).
  intros j c' Hj Hpj.
  assert (pairs.*1 !! i = Some l) as H1 by (by rewrite list_lookup_fmap, Hi).
  assert (pairs.*1 !! j = Some l) as H2 by (by rewrite list_lookup_fmap, Hpj).
  pose proof (NoDup_lookup _ _ _ _ Hnd H1 H2). lia.
Qed.

(** C10, as amended. For a [--colors] argument 'L1:C1,...,Ln:Cn' (n at
    least 1, no comma and no colon inside a label or a color), [karyogram]
    calls [PlotKaryogram] once, with the dictionary that [dict] builds from
    the pairs: it maps a label to the color of its last occurrence, hence
    every Li to Ci when the labels are distinct. Without [--colors],
    [PlotKaryogram] receives [None]. *)
Theorem karyogram_colors (H : Host) (bp sample out : string)
    (title centromeres : option string) (pairs : list (string * string)) (w : World H) :
  pairs <> [] ->
  Forall (fun p => no_sep p.1 = true /\ no_sep p.2 = true) pairs ->
  run (karyogram bp sample out title centromeres (Some (colors_arg pairs))) w
  = (let '(r, w') :=
       host_PlotKaryogram H bp sample out centromeres title (Some (colors_dict pairs)) w in
     (r, {| world := w';
            trace := [Ev_PlotKaryogram bp sample out centromeres title
                        (Some (colors_dict pairs)) r] |}))
  /\ (forall i l c, pairs !! i = Some (l, c) ->
        (forall j c', (i < j)%nat -> pairs !! j <> Some (l, c')) ->
        colors_dict pairs !! l = Some c)
  /\ (NoDup (pairs.*1) ->
      maps_each_label pairs
        (plotted_colors
           (trace (run (karyogram bp sample out title centromeres
                          (Some (colors_arg pairs))) w).2)))
  /\ run (karyogram bp sample out title centromeres None) w
     = (let '(r, w') := host_PlotKaryogram H bp sample out centromeres title None w in
        (r, {| world := w';
               trace := [Ev_PlotKaryogram bp sample out centromeres title None r] |})).
Proof.
  intros Hne Hf.
  assert (run (karyogram bp sample out title centromeres (Some (colors_arg pairs))) w
  = (let '(r, w') :=
       host_PlotKaryogram H bp sample out centromeres title (Some (colors_dict pairs)) w in
     (r, {| world := w';
            trace := [Ev_PlotKaryogram bp sample out centromeres title
                        (Some (colors_dict pairs)) r] |}))) as Hrun.
  { unfold run, karyogram, bind, lift_outcome, dict.
    rewrite colors_arg_items, dict_pairs_from by done.
    unfold ret, PlotKaryogram, call. simpl.
    by destruct (host_PlotKaryogram _ _ _ _ _ _ _ _). }
  split; [exact Hrun|]. split; [apply colors_dict_last|]. split.
  - intros Hnd. rewrite Hrun.
    destruct (host_PlotKaryogram _ _ _ _ _ _ _ _) as [r w']. simpl.
    exists (colors_dict pairs). split; [done|].
    intros l c Hin. by apply colors_dict_NoDup.
  - unfold run, karyogram, bind, ret, PlotKaryogram, call. simpl.
    by destruct (host_PlotKaryogram _ _ _ _ _ _ _ _).
Qed.

Lemma karyogram_colors_witness :
  maps_each_label [("CEU", "blue"); ("YRI", "red")]
    (plotted_colors
       (trace (run (H := Demo.toy_host)
                 (karyogram "5gen.bp" "Sample_1" "test.png" None None
                    (Some "CEU:blue,YRI:red")) []).2)).
Proof.
  apply (karyogram_colors Demo.toy_host "5gen.bp" "Sample_1" "test.png" None None
           [("CEU", "blue"); ("YRI", "red")] []).
  - done.
  - repeat constructor.
  - compute_done.
Defined.

(** C10 as stated fails on a repeated label: for 'A:red,A:blue' the one
    dictionary passed to [PlotKaryogram] maps A to blue, so it is not a
    dictionary that maps L1 = A to C1 = red. *)
Lemma karyogram_colors_repeated_label :
  exists d,
    plotted_colors
      (trace (run (H := Demo.toy_host)
                (karyogram "5gen.bp" "Sample_1" "test.png" None None
                   (Some "A:red,A:blue")) []).2) = [Some d]
    /\ ("A", "red") ∈ [("A", "red"); ("A", "blue")]
    /\ d !! "A" = Some "blue"
    /\ ~ maps_each_label [("A", "red"); ("A", "blue")]
          (plotted_colors
             (trace (run (H := Demo.toy_host)
                       (karyogram "5gen.bp" "Sample_1" "test.png" None None
                          (Some "A:red,A:blue")) []).2)).
Proof.
  exists (colors_dict [("A", "red"); ("A", "blue")]).
  split; [reflexivity|]. split; [by apply elem_of_cons; left|].
  split; [reflexivity|].
  intros (d & Hd & Hmap).
  assert (d = colors_dict [("A", "red"); ("A", "blue")]) as ->.
  { vm_compute in Hd. injection Hd as <-. reflexivity. }
  specialize (Hmap "A" "red" ltac:(by apply elem_of_cons; left)).
  unfold colors_dict in Hmap. simpl in Hmap.
  rewrite lookup_insert_eq in Hmap. discriminate.
Qed.

End CliFacts.

(** ** The simulator and the Breakpoint Writer of the specification *)
Module SimFacts.
Import Py PyFacts SimGenotype.


(** *** Compaction *)

Lemma compact_cons_cons b1 b2 t :
  compact (b1 :: b2 :: t)
  = if String.eqb (bp_pop b1) (bp_pop b2) then compact (b2 :: t)
    else b1 :: compact (b2 :: t).
Proof. reflexivity. Qed.

Lemma compact_head b t :
  exists b' r, compact (b :: t) = b' :: r /\ bp_pop b' = bp_pop b.
Proof.
  revert b. induction t as [|b2 t IH]; intros b.
  - by exists b, [].
  - rewrite compact_cons_cons.
    destruct (String.eqb_spec (bp_pop b) (bp_pop b2)) as [Heq|Hne].
    + destruct (IH b2) as (b' & r & Hc & Hp). exists b', r. split; [done|congruence].
    + by eexists _, _.
Qed.

Lemma compacted_cons_cons b1 b2 t :
  compacted (b1 :: b2 :: t) <-> bp_pop b1 <> bp_pop b2 /\ compacted (b2 :: t).
Proof.
  unfold compacted. split.
  - intros Hc. split.
    + by apply (Hc 0%nat).
    + intros i x y Hx Hy. by apply (Hc (S i)).
  - intros [Hne Hc] [|i] x y Hx Hy; simpl in *.
    + congruence.
    + by apply (Hc i).
Qed.

Lemma compacted_short b : compacted [b].
Proof. intros [|[|i]] x y Hx Hy; simpl in *; discriminate. Qed.

Lemma compact_compacted t : compacted (compact t).
Proof.
  induction t as [|b1 t IH]; [by intros [|i] ? ? ?|].
  destruct t as [|b2 t]; [apply compacted_short|].
  rewrite compact_cons_cons.
  destruct (String.eqb_spec (bp_pop b1) (bp_pop b2)) as [Heq|Hne]; [done|].
  destruct (compact_head b2 t) as (b' & r & Hc & Hp).
  rewrite Hc in IH |- *. apply compacted_cons_cons. split; [congruence|done].
Qed.

Lemma compact_sublist t : compact t `sublist_of` t.
Proof.
  induction t as [|b1 t IH]; [done|].
  destruct t as [|b2 t]; [done|].
  rewrite compact_cons_cons. destruct (String.eqb _ _).
  - by apply sublist_cons.
  - by apply sublist_skip.
Qed.

Lemma compact_last t : last (compact t) = last t.
Proof.
  induction t as [|b1 t IH]; [done|].
  destruct t as [|b2 t]; [done|].
  rewrite compact_cons_cons, last_cons_cons. destruct (String.eqb _ _); [done|].
  destruct (compact_head b2 t) as (b' & r & Hc & _).
  rewrite Hc in IH |- *. by rewrite last_cons_cons.
Qed.

Lemma increasing_sublist t1 t2 :
  t1 `sublist_of` t2 -> increasing t2 -> increasing t1.
Proof.
  unfold increasing. intros Hsub. induction Hsub as [|x l1 l2 Hs IH|x l1 l2 Hs IH].
  - done.
  - rewrite !fmap_cons, !StronglySorted_cons. intros [Hall Hs2]. split; [|by apply IH].
    rewrite Forall_forall in Hall |- *. intros y Hy. apply Hall.
    eapply elem_of_sublist; [exact Hy|]. by apply fmap_sublist.
  - rewrite fmap_cons, StronglySorted_cons. intros [_ Hs2]. by apply IH.
Qed.

Lemma compact_increasing t : increasing t -> increasing (compact t).
Proof. apply increasing_sublist, compact_sublist. Qed.

Lemma compact_ends_at e t : ends_at e t -> ends_at e (compact t).
Proof. unfold ends_at. by rewrite !fmap_last, compact_last. Qed.

(** *** Slices of a parental track *)

Lemma ends_at_elem e t : ends_at e t -> exists b, b ∈ t /\ bp_end b = e.
Proof.
  unfold ends_at. rewrite fmap_last. intros Hl.
  destruct (last t) as [b|] eqn:Hb; [|done]. injection Hl as <-.
  exists b. split; [|done]. by apply last_Some_elem_of.
Qed.

Lemma label_at_is_Some e t q : ends_at e t -> q <= e -> is_Some (label_at t q).
Proof.
  intros (b & Hb & He)%ends_at_elem Hq. unfold label_at.
  destruct (List.find _ t) as [b'|] eqn:Hf; [by eexists|].
  exfalso. apply list_elem_of_In in Hb.
  pose proof (find_none _ _ Hf b Hb) as Hn. simpl in Hn. apply Z.leb_gt in Hn. lia.
Qed.

Lemma label_at_elem t q l :
  label_at t q = Some l -> exists b, b ∈ t /\ bp_pop b = l.
Proof.
  unfold label_at. destruct (List.find _ t) as [b|] eqn:Hf; [|done].
  intros [= <-]. apply find_some in Hf as [Hb _].
  exists b. split; [by apply list_elem_of_In|done].
Qed.

Lemma slice_labelled L c t p q : labelled L c t -> labelled L c (slice c t p q).
Proof.
  unfold labelled, slice. intros Ht. apply Forall_app. split.
  - apply Forall_forall. intros b [_ Hb]%list_elem_of_filter.
    rewrite Forall_forall in Ht. by apply Ht.
  - destruct (label_at t q) as [l|] eqn:Hl; [|constructor].
    apply label_at_elem in Hl as (b & Hb & <-).
    rewrite Forall_forall in Ht. destruct (Ht b Hb) as [_ HL].
    by repeat constructor.
Qed.

Lemma compact_labelled L c t : labelled L c t -> labelled L c (compact t).
Proof.
  unfold labelled. rewrite !Forall_forall. intros Ht b Hb. apply Ht.
  eapply elem_of_sublist; [exact Hb|apply compact_sublist].
Qed.

Lemma increasing_filter (P : AncestryBreakpoint -> Prop) `{!forall b, Decision (P b)} t :
  increasing t -> increasing (filter P t).
Proof. apply increasing_sublist, sublist_filter. Qed.

Lemma slice_spec c e t p q :
  ends_at e t -> increasing t -> q <= e ->
  increasing (slice c t p q) /\ ends_at q (slice c t p q)
  /\ Forall (fun b => bp_end b <= q) (slice c t p q)
  /\ (p < q -> Forall (fun b => p < bp_end b) (slice c t p q)).
Proof.
  intros He Hinc Hq. unfold slice.
  destruct (label_at_is_Some e t q He Hq) as [l ->].
  assert (Forall (fun b => p < bp_end b < q) (filter (fun b => p < bp_end b < q) t)) as Hf.
  { apply Forall_forall. intros b Hb. by apply list_elem_of_filter in Hb as [? _]. }
  split; [|split; [|split]].
  - unfold increasing. rewrite fmap_app. apply StronglySorted_app. split; [|split].
    + intros x1 x2 Hx1 Hx2. apply list_elem_of_singleton in Hx2 as ->.
      apply list_elem_of_fmap in Hx1 as (b & -> & Hb).
      rewrite Forall_forall in Hf. apply Hf in Hb. simpl. lia.
    + by apply increasing_filter.
    + repeat constructor.
  - unfold ends_at. by rewrite fmap_app, last_app.
  - apply Forall_app. split; [|by repeat constructor].
    eapply Forall_impl; [exact Hf|]. simpl. intros; lia.
  - intros Hpq. apply Forall_app. split; [|by repeat constructor].
    eapply Forall_impl; [exact Hf|]. simpl. intros; lia.
Qed.

(** *** The recombination walk *)

Section Walk.
Context (smp : Sampler).

Lemma walk_spec c m t_on t_off fuel p g w g' :
  ends_at (chrom_end m) t_on -> increasing t_on ->
  ends_at (chrom_end m) t_off -> increasing t_off ->
  walk smp c m t_on t_off fuel p g = Some (w, g') ->
  increasing w /\ ends_at (chrom_end m) w
  /\ (p < chrom_end m -> Forall (fun b => p < bp_end b) w).
Proof.
  revert t_on t_off p g w g'.
  induction fuel as [|fuel IH]; intros t_on t_off p g w g' He1 Hi1 He2 Hi2; [done|].
  simpl. destruct (draw_gap smp m p g) as [d g1].
  destruct (Z.leb_spec (chrom_end m) (p + Z.pos d)) as [Hend|Hmore].
  - intros [= <- <-].
    destruct (slice_spec c (chrom_end m) t_on p (chrom_end m) He1 Hi1 ltac:(lia))
      as (? & ? & ? & ?). done.
  - destruct (walk smp c m t_off t_on fuel (p + Z.pos d) g1) as [[rest g2]|] eqn:Hw;
      [|done].
    intros [= <- <-].
    destruct (IH _ _ _ _ _ _ He2 Hi2 He1 Hi1 Hw) as (Hri & Hre & Hrp).
    specialize (Hrp Hmore).
    destruct (slice_spec c (chrom_end m) t_on p (p + Z.pos d) He1 Hi1 ltac:(lia))
      as (Hsi & Hse & Hsle & Hsp).
    split; [|split].
    + unfold increasing. rewrite fmap_app. apply StronglySorted_app.
      split; [|by split].
      intros x1 x2 (b1 & -> & Hb1)%list_elem_of_fmap (b2 & -> & Hb2)%list_elem_of_fmap.
      rewrite Forall_forall in Hsle, Hrp. apply Hsle in Hb1. apply Hrp in Hb2. lia.
    + unfold ends_at in *. rewrite fmap_app, last_app, Hre. done.
    + intros _. apply Forall_app. split; [apply Hsp; lia|].
      eapply Forall_impl; [exact Hrp|]. simpl. intros; lia.
Qed.

Lemma walk_labelled L c m t_on t_off fuel p g w g' :
  labelled L c t_on -> labelled L c t_off ->
  walk smp c m t_on t_off fuel p g = Some (w, g') -> labelled L c w.
Proof.
  revert t_on t_off p g w g'.
  induction fuel as [|fuel IH]; intros t_on t_off p g w g' Hon Hoff; [done|].
  simpl. destruct (draw_gap smp m p g) as [d g1].
  destruct (chrom_end m <=? p + Z.pos d).
  - intros [= <- <-]. by apply slice_labelled.
  - destruct (walk smp c m t_off t_on fuel (p + Z.pos d) g1) as [[rest g2]|] eqn:Hw;
      [|done].
    intros [= <- <-]. apply Forall_app. split; [by apply slice_labelled|].
    exact (IH _ _ _ _ _ _ Hoff Hon Hw).
Qed.

Lemma walk_total c m t_on t_off fuel p g :
  (Z.to_nat (chrom_end m - p) < fuel)%nat ->
  is_Some (walk smp c m t_on t_off fuel p g).
Proof.
  revert t_on t_off p g. induction fuel as [|fuel IH]; intros t_on t_off p g Hf; [lia|].
  simpl. destruct (draw_gap smp m p g) as [d g1].
  destruct (Z.leb_spec (chrom_end m) (p + Z.pos d)) as [Hend|Hmore]; [by eexists|].
  destruct (IH t_off t_on (p + Z.pos d) g1 ltac:(lia)) as [[rest g2] ->]. by eexists.
Qed.

Lemma recombine_total c m t0 t1 g : is_Some (recombine smp c m t0 t1 g).
Proof.
  unfold recombine.
  destruct (walk_total c m t0 t1 (S (Z.to_nat (chrom_end m - chrom_start m)))
              (chrom_start m) g ltac:(lia)) as [[t g'] ->].
  by eexists.
Qed.

Lemma recombine_spec L c m t0 t1 g t g' :
  ends_at (chrom_end m) t0 -> increasing t0 -> labelled L c t0 ->
  ends_at (chrom_end m) t1 -> increasing t1 -> labelled L c t1 ->
  recombine smp c m t0 t1 g = Some (t, g') ->
  increasing t /\ ends_at (chrom_end m) t /\ compacted t /\ labelled L c t.
Proof.
  intros He0 Hi0 Hl0 He1 Hi1 Hl1. unfold recombine.
  destruct (walk smp c m t0 t1 _ _ g) as [[w g1]|] eqn:Hw; [|done].
  intros [= <- <-].
  destruct (walk_spec _ _ _ _ _ _ _ _ _ He0 Hi0 He1 Hi1 Hw) as (Hi & He & _).
  split; [by apply compact_increasing|]. split; [by apply compact_ends_at|].
  split; [apply compact_compacted|].
  apply compact_labelled. exact (walk_labelled _ _ _ _ _ _ _ _ _ _ Hl0 Hl1 Hw).
Qed.

(** *** Haplotypes, individuals, generations *)

Context (L : string -> Prop) (G : list (string * Q) -> Prop).
Context (HL : forall props g, G props -> L (draw_population smp props g).1).

Lemma founder_hap_ok cms l : L l -> hap_ok L cms (founder_hap cms l).
Proof.
  intros Hl. unfold hap_ok, founder_hap.
  induction cms as [|[c m] cms IH]; constructor; [|done].
  repeat split; simpl.
  - repeat constructor.
  - intros [|[|i]] x y Hx Hy; simpl in *; discriminate.
  - by repeat constructor.
Qed.

Lemma draw_founder_ok cms props g :
  G props -> individual_ok L cms (draw_founder smp cms props g).1.
Proof.
  intros HG. unfold draw_founder.
  pose proof (HL props g HG) as H0.
  destruct (draw_population smp props g) as [l0 g1].
  pose proof (HL props g1 HG) as H1.
  destruct (draw_population smp props g1) as [l1 g2].
  split; by apply founder_hap_ok.
Qed.

Lemma founders_ok cms props n g :
  G props -> Forall (individual_ok L cms) (founders smp cms props n g).1.
Proof.
  intros HG. revert g. induction n as [|n IH]; intros g; simpl; [constructor|].
  pose proof (draw_founder_ok cms props g HG) as Hf.
  destruct (draw_founder smp cms props g) as [i g1].
  specialize (IH g1). destruct (founders smp cms props n g1) as [rest g2].
  by constructor.
Qed.

Lemma gamete_total cms h0 h1 g : is_Some (gamete smp cms h0 h1 g).
Proof.
  revert h0 h1 g. induction cms as [|[c m] cms IH]; intros h0 h1 g; [by eexists|].
  destruct h0 as [|[c0 t0] h0]; [by eexists|].
  destruct h1 as [|[c1 t1] h1]; [by eexists|].
  simpl. destruct (recombine_total c m t0 t1 g) as [[t g1] ->].
  destruct (IH h0 h1 g1) as [[h g2] ->]. by eexists.
Qed.

Lemma gamete_ok cms h0 h1 g h g' :
  hap_ok L cms h0 -> hap_ok L cms h1 ->
  gamete smp cms h0 h1 g = Some (h, g') -> hap_ok L cms h.
Proof.
  unfold hap_ok. intros H0. revert h1 g h g'.
  induction H0 as [|[c m] [c0 t0] cms h0 Hct0 H0 IH]; intros h1 g h g' H1.
  - intros [= <- <-]. constructor.
  - inversion H1 as [|cm [c1 t1] cms' h1' Hct1 H1' Heq1 Heq2]; subst. simpl.
    destruct (recombine smp c m t0 t1 g) as [[t g1]|] eqn:Hr; [|done].
    destruct (gamete smp cms h0 h1' g1) as [[hr g2]|] eqn:Hg; [|done].
    intros [= <- <-].
    destruct Hct0 as (_ & Hi0 & He0 & _ & Hl0), Hct1 as (_ & Hi1 & He1 & _ & Hl1).
    simpl in *.
    destruct (recombine_spec L _ _ _ _ _ _ _ He0 Hi0 Hl0 He1 Hi1 Hl1 Hr)
      as (? & ? & ? & ?).
    constructor; [done|]. by eapply IH.
Qed.

Lemma offspring_hap_ok cms props prev g :
  G props -> Forall (individual_ok L cms) prev ->
  on_return (fun r => hap_ok L cms r.1) (offspring_hap smp cms props prev g).
Proof.
  intros HG Hprev. unfold offspring_hap.
  destruct (draw_parent smp props (length prev) g) as [[i|] g1].
  - destruct (prev !! i) as [[h0 h1]|] eqn:Hi; [|by intros name].
    destruct (Forall_lookup_1 _ _ _ _ Hprev Hi) as [H0 H1]. simpl in *.
    destruct (gamete_total cms h0 h1 g1) as [[h g2] Hg]. rewrite Hg. simpl.
    exact (gamete_ok _ _ _ _ _ _ H0 H1 Hg).
  - pose proof (draw_founder_ok cms props g1 HG) as [H0 H1].
    destruct (draw_founder smp cms props g1) as [[h0 h1] g2]. simpl in *.
    destruct (gamete_total cms h0 h1 g2) as [[h g3] Hg]. rewrite Hg. simpl.
    exact (gamete_ok _ _ _ _ _ _ H0 H1 Hg).
Qed.

Lemma offspring_ok cms props prev g :
  G props -> Forall (individual_ok L cms) prev ->
  on_return (fun r => individual_ok L cms r.1) (offspring smp cms props prev g).
Proof.
  intros HG Hprev. unfold offspring.
  pose proof (offspring_hap_ok cms props prev g HG Hprev) as H0.
  destruct (offspring_hap smp cms props prev g) as [[h0 g1]|e]; [|done].
  pose proof (offspring_hap_ok cms props prev g1 HG Hprev) as H1.
  destruct (offspring_hap smp cms props prev g1) as [[h1 g2]|e]; [|done].
  by split.
Qed.

Lemma offsprings_ok cms props prev n g :
  G props -> Forall (individual_ok L cms) prev ->
  on_return (fun r => Forall (individual_ok L cms) r.1 /\ length r.1 = n)
    (offsprings smp cms props prev n g).
Proof.
  intros HG Hprev. revert g. induction n as [|n IH]; intros g; simpl; [by split|].
  pose proof (offspring_ok cms props prev g HG Hprev) as Hi.
  destruct (offspring smp cms props prev g) as [[i g1]|e]; [|done].
  specialize (IH g1).
  destruct (offsprings smp cms props prev n g1) as [[rest g2]|e]; [|done].
  simpl in *. destruct IH as [IH Hlen]. split; [by constructor|by rewrite Hlen].
Qed.

Lemma mate_ok cms popsize nsamples gens prev g :
  Forall G gens -> Forall (individual_ok L cms) prev ->
  on_return (fun r => Forall (individual_ok L cms) r.1)
    (mate smp cms popsize nsamples gens prev g).
Proof.
  intros HG. revert prev g.
  induction HG as [|props gens Hprops HG IH]; intros prev g Hprev; simpl; [done|].
  pose proof (offsprings_ok cms props prev
                (generation_size popsize nsamples gens) g Hprops Hprev) as Hn.
  destruct (offsprings smp cms props prev _ g) as [[next g1]|e]; [|done].
  apply IH, Hn.
Qed.

Lemma simulate_ok model cms popsize seed :
  Forall G (generations model) ->
  on_return (Forall (individual_ok L cms)) (simulate smp model cms popsize seed).
Proof.
  unfold simulate. destruct (generations model) as [|props0 gens]; [by intros _ name|].
  intros [HG0 HG]%Forall_cons.
  pose proof (founders_ok cms props0
                (generation_size popsize (num_samples model) gens)
                (seed_rng smp seed) HG0) as Hf.
  destruct (founders smp cms props0 _ _) as [gen0 g1].
  pose proof (mate_ok cms popsize (num_samples model) gens gen0 g1 HG Hf) as Hm.
  by destruct (mate smp cms popsize (num_samples model) gens gen0 g1) as [[l g2]|e].
Qed.

End Walk.

Lemma load_maps_spec w mapdir chroms cms :
  load_maps w mapdir chroms = Returned cms ->
  cms.*1 = chroms /\ Forall (fun cm => maps w !! (mapdir, cm.1) = Some cm.2) cms.
Proof.
  revert cms. induction chroms as [|c cs IH]; intros cms; simpl.
  - by intros [= <-].
  - destruct (maps w !! (mapdir, c)) as [m|] eqn:Hm; [|done].
    destruct (load_maps w mapdir cs) as [r|e]; [|done].
    intros [= <-]. destruct (IH r eq_refl) as [Hn Hall].
    split; [by rewrite fmap_cons, Hn|]. by constructor.
Qed.

Lemma load_maps_expected w mapdir chroms :
  on_return (fun _ => True) (load_maps w mapdir chroms).
Proof.
  induction chroms as [|c cs IH]; simpl; [done|].
  destruct (maps w !! (mapdir, c)); [|by intros name].
  by destruct (load_maps w mapdir cs).
Qed.

Lemma load_model_expected w path : on_return (fun _ => True) (load_model w path).
Proof.
  unfold load_model, check_model. destruct (models w !! path) as [m|]; [|by intros name].
  destruct (generations m); [by intros name|].
  by destruct (_ && _ && _).
Qed.

(** What [simulate_gt] returns: a haplotype pair per sample, every haplotype
    with one well-formed track per requested chromosome, its labels of the
    kind [L] when the sampler draws such labels from the generations [G] of
    the model. *)
Lemma simulate_gt_ok smp (L : string -> Prop) (G : list (string * Q) -> Prop)
    model mapdir chroms popsize seed w :
  (forall props g, G props -> L (draw_population smp props g).1) ->
  (forall m, load_model w model = Returned m -> Forall G (generations m)) ->
  on_return
    (fun r => exists cms,
       load_maps w mapdir chroms = Returned cms
       /\ r.1 = sample_names (length r.2)
       /\ Forall (individual_ok L cms) r.2)
    (simulate_gt smp model mapdir chroms popsize seed w).1.
Proof.
  intros HL HG. unfold simulate_gt. simpl.
  pose proof (load_model_expected w model) as Hm.
  destruct (load_model w model) as [m|e]; [|done].
  pose proof (load_maps_expected w mapdir chroms) as Hc.
  destruct (load_maps w mapdir chroms) as [cms|e] eqn:Hcms; [|done].
  pose proof (simulate_ok smp L G HL m cms popsize seed (HG m eq_refl)) as Hs.
  destruct (simulate smp m cms popsize seed) as [inds|e]; [|done].
  simpl. by exists cms.
Qed.

Lemma simulate_gt_world smp model mapdir chroms popsize seed w :
  (simulate_gt smp model mapdir chroms popsize seed w).2 = w.
Proof. reflexivity. Qed.

(** The track of the [i]-th requested chromosome in a well-formed haplotype. *)
Lemma hap_ok_lookup L w mapdir chroms cms h i c :
  load_maps w mapdir chroms = Returned cms ->
  hap_ok L cms h -> chroms !! i = Some c ->
  exists m t, maps w !! (mapdir, c) = Some m /\ h !! i = Some (c, t)
              /\ increasing t /\ ends_at (chrom_end m) t /\ compacted t.
Proof.
  intros [Hnames Hmaps]%load_maps_spec Hh Hi.
  rewrite <- Hnames, list_lookup_fmap in Hi.
  destruct (cms !! i) as [[c' m]|] eqn:Hcm; [|done]. injection Hi as ->.
  destruct (Forall2_lookup_l _ _ _ _ _ Hh Hcm)
    as ([c' t] & Hht & Hc & Hinc & Hend & Hcomp & _).
  simpl in *. subst c'.
  pose proof (Forall_lookup_1 _ _ _ _ Hmaps Hcm) as Hm. simpl in Hm.
  by exists m, t.
Qed.

Lemma chrom_end_max (m : GeneticMap) x :
  StronglySorted Z.lt (m.*1) -> x ∈ m.*1 -> x <= chrom_end m.
Proof.
  unfold chrom_end. intros Hs Hx.
  destruct (last (m.*1)) as [e|] eqn:He.
  - apply last_Some in He as [l' He]. rewrite He in Hs, Hx. simpl.
    apply elem_of_app in Hx as [Hx|Hx%list_elem_of_singleton]; [|lia].
    apply StronglySorted_app in Hs as (Hlt & _ & _).
    specialize (Hlt x e Hx ltac:(by apply list_elem_of_singleton)). lia.
  - apply last_None in He. rewrite He in Hx. by apply elem_of_nil in Hx.
Qed.

Lemma compact_label_at t x :
  increasing t -> label_at (compact t) x = label_at t x.
Proof.
  unfold label_at. induction t as [|b1 t IH]; [done|].
  destruct t as [|b2 t]; [done|]. intros Hinc.
  assert (increasing (b2 :: t)) as Hinc'.
  { unfold increasing in *. rewrite fmap_cons in Hinc.
    by apply StronglySorted_cons in Hinc as [_ ?]. }
  assert (bp_end b1 < bp_end b2) as Hlt.
  { unfold increasing in Hinc. rewrite !fmap_cons in Hinc.
    apply StronglySorted_cons in Hinc as [Hall _].
    by apply Forall_cons in Hall as [? _]. }
  specialize (IH Hinc'). rewrite compact_cons_cons.
  destruct (String.eqb_spec (bp_pop b1) (bp_pop b2)) as [Heq|Hne].
  - rewrite IH. cbn [List.find].
    destruct (Z.leb_spec x (bp_end b1)); [|done].
    destruct (Z.leb_spec x (bp_end b2)); [|lia]. simpl. by rewrite Heq.
  - cbn [List.find]. destruct (Z.leb_spec x (bp_end b1)); [done|].
    exact IH.
Qed.

Lemma simulated_samples_haps samples breakpoints s :
  s ∈ simulated_samples samples breakpoints -> sample_haps s ∈ breakpoints.
Proof.
  unfold simulated_samples. revert breakpoints.
  induction samples as [|id ids IH]; intros [|ind inds]; simpl;
    try (by intros ?%elem_of_nil).
  intros [->|Hin]%elem_of_cons; simpl.
  - apply elem_of_cons. by left.
  - apply elem_of_cons. right. by apply IH.
Qed.

Lemma sample_names_length n : length (sample_names n) = n.
Proof. unfold sample_names. by rewrite length_map, length_seq. Qed.

(** C4. Whatever the seed, the model and the maps, every sample that
    [simulate_gt] returns has, on each of its two haplotypes and for every
    requested chromosome, a track whose end positions are strictly increasing
    and whose last breakpoint ends at the last mapped position of the
    chromosome, which is the largest one when the map is sorted; and
    [simulate_gt] never fails for a recombination walk that did not end. *)
Theorem coverage_invariant (smp : Sampler) (model mapdir : string)
    (chroms : list string) (popsize seed : Z) (w : Store) :
  (forall name,
     (simulate_gt smp model mapdir chroms popsize seed w).1 <> Raised (OtherError name))
  /\ (forall samples breakpoints,
        (simulate_gt smp model mapdir chroms popsize seed w).1
        = Returned (samples, breakpoints) ->
        length samples = length breakpoints /\
        forall s h i c,
          s ∈ simulated_samples samples breakpoints ->
          h = (sample_haps s).1 \/ h = (sample_haps s).2 ->
          chroms !! i = Some c ->
          exists m t,
            maps w !! (mapdir, c) = Some m /\ h !! i = Some (c, t)
            /\ increasing t /\ ends_at (chrom_end m) t
            /\ (StronglySorted Z.lt (m.*1) -> forall x, x ∈ m.*1 -> x <= chrom_end m)).
Proof.
  pose proof (simulate_gt_ok smp (fun _ => True) (fun _ => True)
                model mapdir chroms popsize seed w (fun _ _ _ => I)
                (fun m _ => Forall_true _ _ (fun _ => I))) as Hok.
  split.
  - intros name Hr. rewrite Hr in Hok. by apply (Hok name).
  - intros samples breakpoints Hr. rewrite Hr in Hok.
    destruct Hok as (cms & Hcms & Hnames & Hinds). simpl in *.
    split; [by rewrite Hnames, sample_names_length|].
    intros s h i c Hs Hh Hc.
    apply simulated_samples_haps in Hs.
    rewrite Forall_forall in Hinds. destruct (Hinds _ Hs) as [H0 H1].
    assert (hap_ok (fun _ => True) cms h) as Hhap by (by destruct Hh as [-> | ->]).
    destruct (hap_ok_lookup _ w mapdir chroms cms h i c Hcms Hhap Hc)
      as (m & t & Hm & Ht & Hinc & Hend & _).
    exists m, t. repeat (split; [done|]).
    intros Hsorted x Hx. by apply chrom_end_max.
Qed.



Lemma coverage_invariant_witness :
  exists s m t,
    simulated_samples Demo.toy_samples Demo.toy_breakpoints !! 0%nat = Some s
    /\ maps Demo.toy_store !! ("map", "2") = Some m
    /\ (sample_haps s).2 !! 1%nat = Some ("2", t)
    /\ increasing t /\ ends_at (chrom_end m) t.
Proof.
  destruct (coverage_invariant Demo.lcg "model.dat" "map" ["1"; "2"] 4 7 Demo.toy_store)
    as [_ Hcov].
  destruct (Hcov Demo.toy_samples Demo.toy_breakpoints) as [_ Htracks].
  { vm_compute. reflexivity. }
  destruct (simulated_samples Demo.toy_samples Demo.toy_breakpoints !! 0%nat)
    as [s|] eqn:Hs; [|discriminate Hs].
  destruct (Htracks s (sample_haps s).2 1%nat "2")
    as (m & t & Hm & Ht & Hinc & Hend & _).
  - apply list_elem_of_lookup. exists 0%nat. exact Hs.
  - right. reflexivity.
  - reflexivity.
  - exists s, m, t. auto.
Defined.


(** C5. In every track of every sample that [simulate_gt] returns, no two
    consecutive breakpoints carry the same population label. *)
Theorem compaction_invariant (smp : Sampler) (model mapdir : string)
    (chroms : list string) (popsize seed : Z) (w : Store) :
  forall samples breakpoints,
    (simulate_gt smp model mapdir chroms popsize seed w).1
    = Returned (samples, breakpoints) ->
    forall s h c t,
      s ∈ simulated_samples samples breakpoints ->
      h = (sample_haps s).1 \/ h = (sample_haps s).2 ->
      (c, t) ∈ h ->
      compacted t.
Proof.
  intros samples breakpoints Hr s h c t Hs Hh Hct.
  pose proof (simulate_gt_ok smp (fun _ => True) (fun _ => True)
                model mapdir chroms popsize seed w (fun _ _ _ => I)
                (fun m _ => Forall_true _ _ (fun _ => I))) as Hok.
  rewrite Hr in Hok. destruct Hok as (cms & Hcms & Hnames & Hinds). simpl in *.
  apply simulated_samples_haps in Hs.
  rewrite Forall_forall in Hinds. destruct (Hinds _ Hs) as [H0 H1].
  assert (hap_ok (fun _ => True) cms h) as Hhap by (by destruct Hh as [-> | ->]).
  apply list_elem_of_lookup in Hct as [i Hi].
  destruct (Forall2_lookup_r _ _ _ _ _ Hhap Hi) as (cm & _ & _ & _ & _ & Hcomp & _).
  exact Hcomp.
Qed.

Lemma compaction_invariant_witness :
  exists s t,
    simulated_samples Demo.toy_samples Demo.toy_breakpoints !! 1%nat = Some s
    /\ (sample_haps s).1 !! 0%nat = Some ("1", t)
    /\ compacted t.
Proof.
  pose proof (compaction_invariant Demo.lcg "model.dat" "map" ["1"; "2"] 4 7
                Demo.toy_store Demo.toy_samples Demo.toy_breakpoints) as Hcomp.
  eexists _, _. split; [reflexivity|]. split; [reflexivity|].
  eapply Hcomp.
  - vm_compute. reflexivity.
  - apply list_elem_of_lookup. exists 1%nat. reflexivity.
  - left. reflexivity.
  - apply list_elem_of_lookup. exists 0%nat. reflexivity.
Defined.

Local Open Scope list_scope.


(** *** Decimal text *)

Lemma Z_of_string_of_Z z : Z_of_string (string_of_Z z) = Some z.
Proof.
  unfold Z_of_string, string_of_Z.
  rewrite NilZero.isi.
  - simpl. f_equal. apply DecimalZ.of_to.
  - destruct z; simpl; try discriminate.
    intros [= H]. by apply (Unsigned.to_uint_nonnil p).
  - destruct z; simpl; try discriminate.
    intros [= H]. by apply (Unsigned.to_uint_nonnil p).
Qed.

Lemma free_cons a c s :
  nat_of_ascii c <> nat_of_ascii a -> free a s = true -> free a (String c s) = true.
Proof.
  intros Hc Hs. cbn [free]. rewrite Hs, andb_true_r.
  apply negb_true_iff, Ascii.eqb_neq. by intros ->.
Qed.

Lemma free_string_of_uint a d :
  (nat_of_ascii a < 45)%nat -> free a (NilEmpty.string_of_uint d) = true.
Proof.
  intros Ha. induction d; cbn [NilEmpty.string_of_uint]; [done|..];
    (apply free_cons; [intros Heq; rewrite <- Heq in Ha; vm_compute in Ha; lia|done]).
Qed.

Lemma free_string_of_Z a z :
  (nat_of_ascii a < 45)%nat -> free a (string_of_Z z) = true.
Proof.
  intros Ha. unfold string_of_Z.
  assert (forall d, free a (NilZero.string_of_uint d) = true) as Hu.
  { intros d. destruct d; try (by apply free_string_of_uint).
    apply free_cons; [intros Heq; rewrite <- Heq in Ha; vm_compute in Ha; lia|done]. }
  destruct (Z.to_int z) as [d|d]; cbn [NilZero.string_of_int]; [apply Hu|].
  apply free_cons; [intros Heq; rewrite <- Heq in Ha; vm_compute in Ha; lia|apply Hu].
Qed.

Lemma is_token_free s : is_token s = true -> free tab s = true /\ free nl s = true.
Proof.
  unfold is_token. induction s as [|a s IH]; simpl; [done|].
  intros [[Ht Hn]%andb_prop Hs]%andb_prop. destruct (IH Hs) as [-> ->].
  by rewrite Ht, Hn.
Qed.

(** *** Lines *)

Lemma parse_line_bp h b :
  is_token (bp_chrom b) = true -> is_token (bp_pop b) = true ->
  parse_line (bp_line h b) = Some (Data h b).
Proof.
  intros [Hc _]%is_token_free [Hp _]%is_token_free. unfold parse_line, bp_line.
  rewrite split_join.
  - rewrite !Z_of_string_of_Z. by destruct b.
  - done.
  - repeat (apply Forall_cons; split); try done;
      apply free_string_of_Z; vm_compute; lia.
Qed.

Lemma parse_line_header id :
  is_token id = true -> parse_line id = Some (Header id).
Proof.
  intros [Ht _]%is_token_free. unfold parse_line. by rewrite split_free.
Qed.

Lemma free_bp_line h b :
  is_token (bp_chrom b) = true -> is_token (bp_pop b) = true ->
  free nl (bp_line h b) = true.
Proof.
  intros [_ Hc]%is_token_free [_ Hp]%is_token_free. unfold bp_line, join. simpl.
  rewrite !free_app. simpl. rewrite Hc, Hp, !free_string_of_Z; [done|vm_compute; lia..].
Qed.

Lemma split_unlines ls :
  Forall (fun l => free nl l = true) ls -> split nl (unlines ls) = (ls ++ [""])%list.
Proof.
  induction 1 as [|l ls Hl Hls IH]; [done|].
  cbn [unlines]. rewrite split_app_sep by done. by rewrite IH.
Qed.

Lemma lines_unlines ls :
  Forall (fun l => free nl l = true) ls -> lines (unlines ls) = Some ls.
Proof.
  intros Hls. unfold lines. rewrite split_unlines by done.
  rewrite reverse_app. simpl. by rewrite reverse_involutive.
Qed.

(** *** Tokens and sections *)


Lemma hap_lines_bps h hp : hap_lines h hp = map (bp_line h) (hap_bps hp).
Proof.
  unfold hap_lines, hap_bps. induction hp as [|[c t] hp IH]; simpl; [done|].
  by rewrite IH, map_app.
Qed.

Lemma wf_hap_bps hp :
  wf_hap hp ->
  Forall (fun b => is_token (bp_chrom b) = true /\ is_token (bp_pop b) = true) (hap_bps hp).
Proof.
  intros [Hall _]. unfold hap_bps. induction Hall as [|[c t] hp Hct Hall IH]; simpl.
  - constructor.
  - apply Forall_app. split; [|done].
    destruct Hct as (_ & Hc & Ht). simpl in *.
    eapply Forall_impl; [exact Ht|]. simpl. intros b [-> Hp]. done.
Qed.

Lemma parse_tokens_app ls1 ls2 ts1 ts2 :
  parse_tokens ls1 = Some ts1 -> parse_tokens ls2 = Some ts2 ->
  parse_tokens (ls1 ++ ls2) = Some (ts1 ++ ts2)%list.
Proof.
  revert ts1. induction ls1 as [|l ls1 IH]; intros ts1; simpl.
  - by intros [= <-].
  - destruct (parse_line l) as [t|]; [|done].
    destruct (parse_tokens ls1) as [ts|]; [|done].
    intros [= <-] H2. by rewrite (IH ts eq_refl H2).
Qed.

Lemma parse_tokens_bps h bps :
  Forall (fun b => is_token (bp_chrom b) = true /\ is_token (bp_pop b) = true) bps ->
  parse_tokens (map (bp_line h) bps) = Some (map (Data h) bps).
Proof.
  induction 1 as [|b bps [Hc Hp] Hall IH]; simpl; [done|].
  by rewrite parse_line_bp, IH.
Qed.

Lemma parse_tokens_sample s :
  wf_sample s -> parse_tokens (sample_lines s) = Some (sample_tokens s).
Proof.
  intros (Hid & H0 & H1). unfold sample_lines, sample_tokens.
  cbn [parse_tokens]. rewrite parse_line_header by done.
  rewrite !hap_lines_bps.
  rewrite (parse_tokens_app _ _ _ _ (parse_tokens_bps 0 _ (wf_hap_bps _ H0))
             (parse_tokens_bps 1 _ (wf_hap_bps _ H1))).
  done.
Qed.

Lemma parse_tokens_samples ss :
  Forall wf_sample ss ->
  parse_tokens (flat_map sample_lines ss) = Some (flat_map sample_tokens ss).
Proof.
  induction 1 as [|s ss Hs Hss IH]; [done|].
  cbn [flat_map]. by apply parse_tokens_app; [apply parse_tokens_sample|].
Qed.

Lemma free_sample_lines ss :
  Forall wf_sample ss -> Forall (fun l => free nl l = true) (flat_map sample_lines ss).
Proof.
  induction 1 as [|s ss (Hid & H0 & H1) Hss IH]; [constructor|].
  cbn [flat_map]. apply Forall_app. split; [|done].
  unfold sample_lines. constructor; [by apply is_token_free in Hid as [_ ?]|].
  rewrite !hap_lines_bps. apply Forall_app. split; apply Forall_map.
  - eapply Forall_impl; [exact (wf_hap_bps _ H0)|]. intros b [? ?]. by apply free_bp_line.
  - eapply Forall_impl; [exact (wf_hap_bps _ H1)|]. intros b [? ?]. by apply free_bp_line.
Qed.

Lemma sections_data h bps rest :
  sections (map (Data h) bps ++ rest)
  = ((map (pair h) bps ++ (sections rest).1)%list, (sections rest).2).
Proof.
  induction bps as [|b bps IH]; simpl.
  - by destruct (sections rest).
  - rewrite IH. done.
Qed.

Lemma sections_samples ss :
  sections (flat_map sample_tokens ss)
  = ([], map (fun s => (sample_id s, sample_data s)) ss).
Proof.
  induction ss as [|s ss IH]; [done|].
  cbn [flat_map]. unfold sample_tokens at 1. cbn [app sections].
  rewrite <- app_assoc, !sections_data, IH. simpl. unfold sample_data.
  by rewrite app_nil_r.
Qed.

(** *** Haplotypes of a section *)

Lemma filter_hap_0 (l0 l1 : list AncestryBreakpoint) :
  filter (fun x : Z * AncestryBreakpoint => x.1 = 0) (map (pair 0) l0 ++ map (pair 1) l1)
  = map (pair 0) l0.
Proof.
  rewrite filter_app.
  assert (filter (fun x : Z * AncestryBreakpoint => x.1 = 0) (map (pair 1) l1) = []) as ->.
  { induction l1 as [|b l1 IH]; [done|]. simpl. by rewrite filter_cons_False. }
  rewrite app_nil_r. induction l0 as [|b l0 IH]; [done|].
  simpl. rewrite filter_cons_True by done. by rewrite IH.
Qed.

Lemma filter_hap_1 (l0 l1 : list AncestryBreakpoint) :
  filter (fun x : Z * AncestryBreakpoint => x.1 = 1) (map (pair 0) l0 ++ map (pair 1) l1)
  = map (pair 1) l1.
Proof.
  rewrite filter_app.
  assert (filter (fun x : Z * AncestryBreakpoint => x.1 = 1) (map (pair 0) l0) = []) as ->.
  { induction l0 as [|b l0 IH]; [done|]. simpl. by rewrite filter_cons_False. }
  simpl. induction l1 as [|b l1 IH]; [done|].
  simpl. rewrite filter_cons_True by done. by rewrite IH.
Qed.

Lemma wf_hap_cons ct hp :
  wf_hap (ct :: hp) ->
  wf_track ct /\ wf_hap hp /\ match hp with [] => True | ct' :: _ => ct.1 <> ct'.1 end.
Proof.
  intros [Hall Hadj]. apply Forall_cons in Hall as [Hct Hall].
  destruct hp as [|ct' hp]; [done|].
  rewrite !fmap_cons in Hadj. destruct Hadj as [Hne Hadj].
  split; [done|]. split; [split; [done|exact Hadj]|exact Hne].
Qed.

Lemma group_chroms_track c t rest hp :
  t <> [] -> Forall (fun b => bp_chrom b = c) t ->
  group_chroms rest = hp ->
  match hp with [] => True | ct' :: _ => c <> ct'.1 end ->
  group_chroms (t ++ rest) = (c, t) :: hp.
Proof.
  intros Hne Hall Hrest Hadj. induction t as [|b t IH]; [done|].
  apply Forall_cons in Hall as [Hb Hall].
  destruct t as [|b' t].
  - simpl. rewrite Hrest. destruct hp as [|[c' t'] hs]; [by rewrite Hb|].
    simpl in Hadj. destruct (String.eqb_spec c' (bp_chrom b)); [congruence|].
    by rewrite Hb.
  - change ((b :: b' :: t) ++ rest)%list with (b :: ((b' :: t) ++ rest))%list.
    cbn [group_chroms]. rewrite (IH ltac:(done) Hall).
    rewrite Hb, String.eqb_refl. done.
Qed.

Lemma group_chroms_hap hp : wf_hap hp -> group_chroms (hap_bps hp) = hp.
Proof.
  unfold hap_bps. induction hp as [|[c t] hp IH]; [done|].
  intros (Hct & Hhp & Hadj)%wf_hap_cons. destruct Hct as (Hne & _ & Hall). simpl in *.
  apply group_chroms_track; [done| |by apply IH|done].
  eapply Forall_impl; [exact Hall|]. by intros b [? _].
Qed.

Lemma section_sample_data s :
  wf_sample s -> section_sample (sample_id s, sample_data s) = Some s.
Proof.
  intros (_ & H0 & H1). unfold section_sample. cbn [fst snd].
  assert (forallb (fun x : Z * AncestryBreakpoint => (x.1 =? 0) || (x.1 =? 1))
            (sample_data s) = true) as ->.
  { unfold sample_data. rewrite forallb_app.
    apply andb_true_intro. split; apply forallb_forall;
      by intros x (b & <- & _)%in_map_iff. }
  unfold hap_of, sample_data. rewrite filter_hap_0, filter_hap_1, !map_map.
  cbn [snd]. rewrite !map_id, !group_chroms_hap by done.
  by destruct s as [id [h0 h1]].
Qed.

Lemma section_samples_data ss :
  Forall wf_sample ss ->
  section_samples (map (fun s => (sample_id s, sample_data s)) ss) = Some ss.
Proof.
  induction 1 as [|s ss Hs Hss IH]; [done|].
  cbn [map section_samples]. by rewrite section_sample_data, IH.
Qed.

Lemma parse_serialize ss :
  Forall wf_sample ss -> parse_breakpoints (serialize ss) = Some ss.
Proof.
  intros Hss. unfold parse_breakpoints, serialize.
  rewrite lines_unlines by (by apply free_sample_lines).
  rewrite parse_tokens_samples, sections_samples by done.
  by apply section_samples_data.
Qed.




(** *** What the simulator hands to the writer *)

Lemma free_is_token s : free tab s = true -> free nl s = true -> is_token s = true.
Proof.
  unfold is_token. induction s as [|a s IH]; cbn [free list_ascii_of_string forallb];
    [done|].
  intros [Ht Hs]%andb_prop [Hn Hs']%andb_prop.
  rewrite Ht, Hn. by apply IH.
Qed.

Lemma is_token_sample_names n : Forall (fun id => is_token id = true) (sample_names n).
Proof.
  unfold sample_names. apply Forall_forall. intros id Hid.
  apply list_elem_of_In, in_map_iff in Hid as (k & <- & _).
  apply free_is_token; rewrite free_app, free_string_of_Z; try done;
    vm_compute; lia.
Qed.

Lemma hap_ok_wf cms h :
  Forall (fun c => is_token c = true) (cms.*1) -> adjacent_distinct (cms.*1) ->
  hap_ok (fun l => is_token l = true) cms h -> wf_hap h.
Proof.
  intros Htok Hadj Hh.
  assert (h.*1 = cms.*1) as Hnames.
  { induction Hh as [|cm ct cms h (Hc & _) _ IH]; [done|].
    rewrite !fmap_cons, Hc. f_equal. apply IH.
    - rewrite fmap_cons in Htok. by apply Forall_cons in Htok as [_ ?].
    - rewrite fmap_cons in Hadj. destruct (cms.*1); [done|]. by destruct Hadj. }
  split; [|by rewrite Hnames]. clear Hadj Hnames.
  induction Hh as [|cm ct cms h (Hc & _ & He & _ & Hl) Hh IH]; [constructor|].
  rewrite fmap_cons in Htok. apply Forall_cons in Htok as [Hcm Htok].
  constructor; [|by apply IH].
  split; [|split].
  - intros Hnil. unfold ends_at in He. by rewrite Hnil in He.
  - by rewrite Hc.
  - by rewrite Hc.
Qed.

Lemma wf_simulated_samples samples breakpoints :
  Forall (fun id => is_token id = true) samples ->
  Forall (fun i : individual => wf_hap i.1 /\ wf_hap i.2) breakpoints ->
  Forall wf_sample (simulated_samples samples breakpoints).
Proof.
  unfold simulated_samples. intros Hs. revert breakpoints.
  induction Hs as [|id ids Hid Hids IH]; intros breakpoints Hb; [constructor|].
  destruct Hb as [|i inds [H0 H1] Hinds]; [constructor|].
  cbn [zip_with]. constructor; [|by apply IH].
  split; [exact Hid|by split].
Qed.

Lemma load_model_checked w model m :
  load_model w model = Returned m ->
  models w !! model = Some m /\ Forall (fun props => props <> []) (generations m).
Proof.
  unfold load_model, check_model. destruct (models w !! model) as [m'|]; [|done].
  destruct (generations m') as [|founder gens] eqn:Hg; [done|].
  destruct (_ && _ && _) eqn:Hchk; [|done]. intros [= ->]. split; [done|].
  apply andb_prop in Hchk as [[_ Hprops]%andb_prop _].
  rewrite Hg. apply Forall_forall. intros props Hin%list_elem_of_In ->.
  rewrite forallb_forall in Hprops. by specialize (Hprops _ Hin).
Qed.

(** The samples of a run are well formed when the chromosome names and the
    labels of the model can be written (no tab, no line feed), no chromosome
    is requested twice in a row, and the sampler draws a population among those
    a generation lists. *)
Lemma simulate_gt_wf smp model mapdir chroms popsize seed w samples breakpoints :
  (forall props g, props <> [] -> (draw_population smp props g).1 ∈ props.*1) ->
  (forall m, models w !! model = Some m ->
     Forall (fun props => Forall (fun l => is_token l = true) (props.*1))
            (generations m)) ->
  Forall (fun c => is_token c = true) chroms -> adjacent_distinct chroms ->
  (simulate_gt smp model mapdir chroms popsize seed w).1 = Returned (samples, breakpoints) ->
  Forall wf_sample (simulated_samples samples breakpoints).
Proof.
  intros Hdraw Hlabels Hchroms Hadj Hr.
  pose proof (simulate_gt_ok smp (fun l => is_token l = true)
                (fun props => props <> []
                              /\ Forall (fun l => is_token l = true) (props.*1))
                model mapdir chroms popsize seed w) as Hok.
  rewrite Hr in Hok. destruct Hok as (cms & Hcms & Hnames & Hinds).
  - intros props g [Hne Htok]. rewrite Forall_forall in Htok. by apply Htok, Hdraw.
  - intros m [Hm Hne]%load_model_checked. specialize (Hlabels m Hm).
    rewrite Forall_forall in Hne, Hlabels. apply Forall_forall. intros props Hin.
    split; [by apply Hne|by apply Hlabels].
  - apply load_maps_spec in Hcms as [Hcs _]. simpl in *.
    apply wf_simulated_samples; [rewrite Hnames; apply is_token_sample_names|].
    eapply Forall_impl; [exact Hinds|].
    intros i [H0 H1]. rewrite <- Hcs in Hchroms, Hadj.
    split; by eapply hap_ok_wf.
Qed.

(** The sampler of the examples draws a listed population. *)
Lemma lcg_draws_listed props g :
  props <> [] -> (draw_population Demo.lcg props g).1 ∈ props.*1.
Proof.
  intros Hne. cbn [Demo.lcg draw_population fst].
  apply list_elem_of_In, nth_In. rewrite length_fmap.
  assert (0 < Z.of_nat (length props)) as Hlen by (destruct props; [done|simpl; lia]).
  pose proof (Z.mod_pos_bound (Demo.lcg_bits g) _ Hlen). lia.
Qed.

(** The artifact of a run of the simulator followed by the writer parses back
    to the samples of that run. *)
Lemma simulate_and_write_round_trip smp model mapdir chroms popsize seed out w
    samples breakpoints :
  (forall props g, props <> [] -> (draw_population smp props g).1 ∈ props.*1) ->
  (forall m, models w !! model = Some m ->
     Forall (fun props => Forall (fun l => is_token l = true) (props.*1))
            (generations m)) ->
  Forall (fun c => is_token c = true) chroms -> adjacent_distinct chroms ->
  (simulate_gt smp model mapdir chroms popsize seed w).1 = Returned (samples, breakpoints) ->
  (simulate_and_write smp model mapdir chroms popsize seed out w).1 = Returned breakpoints
  /\ exists artifact,
       files (simulate_and_write smp model mapdir chroms popsize seed out w).2
         !! (out ++ ".bp")%string = Some artifact
       /\ parse_breakpoints artifact = Some (simulated_samples samples breakpoints).
Proof.
  intros Hdraw Hlabels Hchroms Hadj Hr.
  pose proof (simulate_gt_wf _ _ _ _ _ _ _ _ _ Hdraw Hlabels Hchroms Hadj Hr) as Hwf.
  unfold simulate_and_write.
  destruct (simulate_gt smp model mapdir chroms popsize seed w) as [r w'].
  cbn [fst] in Hr. subst r. split; [done|].
  exists (serialize (simulated_samples samples breakpoints)). split.
  - unfold write_breakpoints. cbn [snd files]. apply lookup_insert_eq.
  - by apply parse_serialize.
Qed.

Example toy_round_trip :
  exists artifact,
    files (simulate_and_write Demo.lcg "model.dat" "map" ["1"; "2"] 4 7 "sim"
             Demo.toy_store).2 !! "sim.bp" = Some artifact
    /\ parse_breakpoints artifact
       = Some (simulated_samples Demo.toy_samples Demo.toy_breakpoints).
Proof.
  apply (simulate_and_write_round_trip Demo.lcg "model.dat" "map" ["1"; "2"] 4 7 "sim"
           Demo.toy_store Demo.toy_samples Demo.toy_breakpoints).
  - apply lcg_draws_listed.
  - intros m Hm. vm_compute in Hm. injection Hm as <-.
    repeat (apply Forall_cons; split); try apply Forall_nil; reflexivity.
  - repeat (apply Forall_cons; split); try apply Forall_nil; reflexivity.
  - split; [discriminate|exact I].
  - vm_compute. reflexivity.
Qed.

End SimFacts.

(** ** More on the commands: malformed input, elapsed times, samples files *)
Module CliMoreFacts.
Import Py Cli PyFacts CliFacts.

Lemma length_split a s : length (split a s) = S (occurrences a s).
Proof.
  induction s as [|c s IH]; [done|]. cbn [split occurrences].
  destruct (Ascii.eqb c a); cbn [length]; [by rewrite IH|].
  destruct (split a s); [done|]. exact IH.
Qed.

Lemma occurrences_app a s t :
  occurrences a (s ++ t) = (occurrences a s + occurrences a t)%nat.
Proof. induction s as [|c s IH]; [done|]. simpl. rewrite IH. lia. Qed.

Lemma occurrences_free a s : occurrences a s = 0%nat <-> free a s = true.
Proof.
  induction s as [|c s IH]; [done|]. cbn [occurrences free].
  destruct (Ascii.eqb c a); simpl; [split; [lia|done]|exact IH].
Qed.

Lemma occurrences_one a s :
  occurrences a s = 1%nat ->
  exists l c, s = l ++ String a c /\ free a l = true /\ free a c = true.
Proof.
  induction s as [|x s IH]; [done|]. cbn [occurrences].
  destruct (Ascii.eqb_spec x a) as [->|Hne]; simpl.
  - intros [= H0]. exists "", s. repeat split. by apply occurrences_free.
  - intros (l & c & -> & Hl & Hc)%IH. exists (String x l), c.
    repeat split; [|done]. cbn [free]. rewrite Hl.
    by apply Ascii.eqb_neq in Hne as ->.
Qed.

Lemma split_pair a l c :
  free a l = true -> free a c = true -> split a (l ++ String a c) = [l; c].
Proof. intros Hl Hc. by rewrite split_app_sep, split_free. Qed.

Lemma dict_raised e items : fold_left dict_step items (Raised e) = Raised e.
Proof. by induction items. Qed.

Lemma dict_malformed items m :
  Exists (fun item : list string => length item <> 2%nat) items ->
  exists msg, fold_left dict_step items (Returned m) = Raised (ValueError msg).
Proof.
  intros Hex. revert m. induction Hex as [item items Hbad|item items Hex IH]; intros m.
  - cbn [fold_left dict_step].
    destruct item as [|k [|v [|x item]]]; try done; rewrite dict_raised; by eexists.
  - cbn [fold_left dict_step].
    destruct item as [|k [|v [|x item]]]; try (rewrite dict_raised; by eexists).
    apply IH.
Qed.

(** X1. A [--colors] argument with an item that does not hold exactly one
    colon (an item without a colon, an item with two, the empty string) makes
    [karyogram] raise the [ValueError] of [dict]: [PlotKaryogram] is not
    called and the world is as it was. *)
Theorem karyogram_malformed_colors (H : Host) (bp sample out : string)
    (title centromeres : option string) (colors : string) (w : World H) :
  Exists (fun item => occurrences ":" item <> 1%nat) (split "," colors) ->
  exists msg,
    run (karyogram bp sample out title centromeres (Some colors)) w
    = (Raised (ValueError msg), {| world := w; trace := [] |}).
Proof.
  intros Hbad.
  destruct (dict_malformed (map (split ":") (split "," colors)) ∅) as [msg Hmsg].
  { apply Exists_fmap. eapply Exists_impl; [exact Hbad|].
    intros item Hitem. unfold compose. rewrite length_split. cbv beta in Hitem. lia. }
  exists msg. unfold run, karyogram, bind, lift_outcome, dict. by rewrite Hmsg.
Qed.

Lemma karyogram_malformed_colors_witness :
  exists msg,
    run (H := Demo.toy_host)
      (karyogram "5gen.bp" "Sample_1" "test.png" None None (Some "CEU:blue,YRI")) []
    = (Raised (ValueError msg), {| world := ([] : World Demo.toy_host); trace := [] |}).
Proof.
  apply (karyogram_malformed_colors Demo.toy_host "5gen.bp" "Sample_1" "test.png"
           None None "CEU:blue,YRI" []).
  apply Exists_cons_tl, Exists_cons_hd. vm_compute. lia.
Defined.

Lemma colors_dict_lookup_inv (pairs : list (string * string)) l c :
  colors_dict pairs !! l = Some c ->
  exists i, pairs !! i = Some (l, c)
            /\ forall j c', (i < j)%nat -> pairs !! j <> Some (l, c').
Proof.
  induction pairs as [|[l' c'] pairs IH] using rev_ind; [done|].
  rewrite colors_dict_snoc. cbn [fst snd].
  destruct (decide (l' = l)) as [->|Hne].
  - rewrite lookup_insert_eq. intros [= ->]. exists (length pairs). split.
    + by rewrite lookup_app_r, Nat.sub_diag by lia.
    + intros j c'' Hj Hpj. apply lookup_lt_Some in Hpj.
      rewrite length_app in Hpj. simpl in Hpj. lia.
  - rewrite lookup_insert_ne by done. intros (i & Hi & Hlast)%IH.
    exists i. split; [by apply lookup_app_l_Some|].
    intros j c'' Hj Hpj. apply lookup_app_Some in Hpj as [Hpj|[_ Hpj]].
    + by apply (Hlast j c'' Hj).
    + destruct (j - length pairs)%nat; [|done]. simpl in Hpj. congruence.
Qed.

Lemma color_item_spec item l c :
  occurrences ":" item = 1%nat -> color_item item = (l, c) <-> item = l ++ String ":" c.
Proof.
  intros (l0 & c0 & -> & Hl & Hc)%occurrences_one.
  unfold color_item. rewrite split_pair by done. split.
  - by intros [= <- <-].
  - intros Heq.
    assert (split ":" (l ++ String ":" c) = [l0; c0]) as Hs
        by (by rewrite <- Heq, split_pair).
    assert (occurrences ":" (l ++ String ":" c) = 1%nat) as Hocc.
    { rewrite <- Heq, occurrences_app. cbn [occurrences]. rewrite Ascii.eqb_refl.
      apply occurrences_free in Hl, Hc. lia. }
    rewrite occurrences_app in Hocc. cbn [occurrences] in Hocc.
    rewrite Ascii.eqb_refl in Hocc.
    rewrite split_pair in Hs by (apply occurrences_free; lia).
    by injection Hs as -> ->.
Qed.

(** X2. For a [--colors] argument whose items hold one colon each,
    [karyogram] calls [PlotKaryogram] once and ends as that call ends; the
    dictionary it passes has an entry for a label exactly when an item opens
    with that label, and the color is the one of the last such item. Empty
    labels and empty colors are entries like any other. *)
Theorem karyogram_colors_entries (H : Host) (bp sample out : string)
    (title centromeres : option string) (colors : string) (w : World H) :
  Forall (fun item => occurrences ":" item = 1%nat) (split "," colors) ->
  exists d,
    run (karyogram bp sample out title centromeres (Some colors)) w
    = (let '(r, w') :=
         host_PlotKaryogram H bp sample out centromeres title (Some d) w in
       (r, {| world := w';
              trace := [Ev_PlotKaryogram bp sample out centromeres title (Some d) r] |}))
    /\ forall l c,
         d !! l = Some c <->
         exists i, split "," colors !! i = Some (l ++ String ":" c)
                   /\ forall j c', (i < j)%nat ->
                        split "," colors !! j <> Some (l ++ String ":" c').
Proof.
  intros Hitems. set (items := split "," colors) in *.
  assert (map (split ":") items = map (fun p => [p.1; p.2]) (map color_item items)) as Hcut.
  { rewrite map_map. apply map_ext_Forall. eapply Forall_impl; [exact Hitems|].
    intros item (l & c & -> & Hl & Hc)%occurrences_one.
    unfold color_item. by rewrite split_pair. }
  assert (forall i l c, map color_item items !! i = Some (l, c)
                        <-> items !! i = Some (l ++ String ":" c)) as Hlookup.
  { intros i l c. change (map color_item items) with (color_item <$> items).
    rewrite list_lookup_fmap.
    destruct (items !! i) as [item|] eqn:Hi; simpl; [|done].
    pose proof (Forall_lookup_1 _ _ _ _ Hitems Hi) as Hone.
    split; intros [= Heq]; f_equal; by apply (color_item_spec item l c Hone). }
  exists (colors_dict (map color_item items)). split.
  - unfold run, karyogram, bind, lift_outcome, dict. fold items.
    rewrite Hcut, dict_pairs_from.
    unfold ret, PlotKaryogram, call. simpl.
    by destruct (host_PlotKaryogram _ _ _ _ _ _ _ _).
  - intros l c. split.
    + intros (i & Hi & Hlast)%colors_dict_lookup_inv. exists i.
      split; [by apply Hlookup|].
      intros j c' Hj Hpj. apply (Hlast j c' Hj). by apply Hlookup.
    + intros (i & Hi & Hlast). apply (colors_dict_last _ i); [by apply Hlookup|].
      intros j c' Hj Hpj. apply (Hlast j c' Hj). by apply Hlookup.
Qed.

Lemma karyogram_colors_entries_witness :
  exists d,
    run (H := Demo.toy_host)
      (karyogram "5gen.bp" "Sample_1" "test.png" None None (Some ":red,A:,A:blue")) []
    = (let '(r, w') :=
         host_PlotKaryogram Demo.toy_host "5gen.bp" "Sample_1" "test.png" None None
           (Some d) [] in
       (r, {| world := w';
              trace := [Ev_PlotKaryogram "5gen.bp" "Sample_1" "test.png" None None
                          (Some d) r] |}))
    /\ forall l c,
         d !! l = Some c <->
         exists i, split "," ":red,A:,A:blue" !! i = Some (l ++ String ":" c)
                   /\ forall j c', (i < j)%nat ->
                        split "," ":red,A:,A:blue" !! j <> Some (l ++ String ":" c').
Proof.
  apply (karyogram_colors_entries Demo.toy_host "5gen.bp" "Sample_1" "test.png"
           None None ":red,A:,A:blue" []).
  repeat constructor.
Defined.

(** *** The chromosome list *)

Lemma join_split a s : join a (split a s) = s.
Proof.
  unfold join. induction s as [|c s IH]; [done|]. cbn [split].
  destruct (Ascii.eqb_spec c a) as [->|Hne].
  - destruct (split a s) as [|p ps] eqn:Hs.
    { pose proof (length_split a s) as Hlen. by rewrite Hs in Hlen. }
    change (String.concat (String a "") ("" :: p :: ps))
      with (String a (String.concat (String a "") (p :: ps))).
    by rewrite IH.
  - destruct (split a s) as [|p ps] eqn:Hs.
    + pose proof (length_split a s) as Hlen. by rewrite Hs in Hlen.
    + destruct ps as [|q ps].
      * simpl in *. by rewrite IH.
      * change (String.concat (String a "") (String c p :: q :: ps))
          with (String c (String.concat (String a "") (p :: q :: ps))).
        by rewrite IH.
Qed.

Lemma split_parts_free a s : Forall (fun p => free a p = true) (split a s).
Proof.
  induction s as [|c s IH]; [by repeat constructor|]. cbn [split].
  destruct (Ascii.eqb c a) eqn:Hc; [by constructor|].
  destruct IH as [|p ps Hp Hps]; [by repeat constructor; simpl; rewrite Hc|].
  constructor; [|done]. cbn [free]. by rewrite Hc, Hp.
Qed.

(** X3. The chromosome list that [simgenotype] hands to [validate_params]
    and to [simulate_gt] is [chroms.split(",")]: joined by commas it gives
    the [--chroms] string back, it has one name more than the string has
    commas (so it is never empty: an empty string gives one empty name), and
    no name holds a comma. [validate_params] always receives it; both calls
    have been made when the run returns. *)
Theorem simgenotype_chroms_list (H : Host)
    (invcf sample_info model mapdir out : string) (popsize : Z) (seed : option Z)
    (chroms : string) (only_breakpoint verbose : bool) (w : World H) :
  let res := run (simgenotype invcf sample_info model mapdir out popsize seed chroms
                    only_breakpoint verbose) w in
  let handed := stage_chroms (trace res.2) in
  Forall (fun cs => join "," cs = chroms
                    /\ length cs = S (occurrences "," chroms)
                    /\ Forall (fun c => free "," c = true) cs) handed
  /\ (1 <= length handed <= 2)%nat
  /\ (res.1 = Returned tt -> length handed = 2%nat).
Proof.
  intros res handed.
  assert (exists n, handed = replicate n (split "," chroms)
                    /\ (1 <= n <= 2)%nat
                    /\ (res.1 = Returned tt -> n = 2%nat)) as (n & Hh & Hn & Hret).
  { unfold handed, res, stage_chroms. unfold_commands. run_host;
      try (by exists 1%nat; repeat split; try lia);
      try (by exists 2%nat; repeat split; try lia).
    all: destruct only_breakpoint; simpl; run_host; destruct verbose; simpl;
      by exists 2%nat; repeat split; try lia. }
  rewrite Hh. rewrite length_replicate. split; [|by split].
  apply Forall_replicate. split; [apply join_split|].
  split; [apply length_split|apply split_parts_free].
Qed.

(** *** Elapsed times *)

(** X4. A run of [simgenotype] that returns read the clock four times:
    before [validate_params], twice after [write_breakpoints] returned, and
    after [output_vcf] (called or skipped). With [verbose] it then prints
    three lines, the second reading minus the first, the fourth minus the
    third, the fourth minus the first; without, it prints nothing. A run that
    raises prints nothing, and read the clock once or three times. *)
Theorem simgenotype_elapsed_times (H : Host)
    (invcf sample_info model mapdir out : string) (popsize : Z) (seed : option Z)
    (chroms : string) (only_breakpoint verbose : bool) (w : World H) :
  let res := run (simgenotype invcf sample_info model mapdir out popsize seed chroms
                    only_breakpoint verbose) w in
  let tr := trace res.2 in
  (res.1 = Returned tt ->
   exists t1 t2 t3 t4 stages vcf,
     tr = ([Ev_time t1] ++ stages ++ [Ev_time t2; Ev_time t3] ++ vcf ++ [Ev_time t4]
           ++ map Ev_print
                (if verbose
                 then [("Time elapsed for breakpoint simulation: "
                          ++ fstr H (fsub H t2 t1))%string;
                       ("Time elapse for creating vcf: "
                          ++ fstr H (fsub H t4 t3))%string;
                       ("Time elapsed for simgenotype execution: "
                          ++ fstr H (fsub H t4 t1))%string]
                 else []))%list
     /\ map call_name stages = ["validate_params"; "simulate_gt"; "write_breakpoints"]
     /\ map call_name vcf = (if only_breakpoint then [] else ["output_vcf"]))
  /\ (forall e, res.1 = Raised e ->
        printed tr = []
        /\ (length (clock_reads tr) = 1%nat \/ length (clock_reads tr) = 3%nat))
  /\ (verbose = false -> printed tr = []).
Proof.
  intros res tr. unfold tr, res, printed, clock_reads. unfold_commands.
  run_host; try (destruct only_breakpoint; simpl; run_host; destruct verbose; simpl);
    (split;
     [ first [ done
             | intros _;
               first [ by eexists _, _, _, _, [_; _; _], []
                     | by eexists _, _, _, _, [_; _; _], [_] ] ]
     | split; [ first [ done | intros e' _; split; [done|simpl; lia] ] | done ] ]).
Qed.

(** *** Logging and the one call *)

(** X6. [simphenotype] sets the logging up before it looks at the sample
    options: [getLogger("run")], then [basicConfig] with the record format
    and [verbosity] as level. With both [--sample] and [--samples-file] the
    run ends there, with the usage error of line 263. Otherwise
    [simulate_pt] is called once, with the logger [getLogger] returned and
    the other arguments as given, and the command ends as that call ends. *)
Theorem simphenotype_logging (H : Host) (genotypes haplotypes : string)
    (replications : Z) (heritability prevalence : option (Float H))
    (region : option string) (samples : list string) (samples_file : option TextFile)
    (chunk_size : option Z) (output verbosity : string) (w : World H) :
  let res := run (simphenotype genotypes haplotypes replications heritability
                    prevalence region samples samples_file chunk_size output
                    verbosity) w in
  let logged := host_getLogger H "run" w in
  let w1 := host_basicConfig H log_format verbosity logged.2 in
  if truthy samples && bool_decide (is_Some samples_file)
  then res = (Raised (UsageError usage_message),
              {| world := w1;
                 trace := [Ev_getLogger "run"; Ev_basicConfig log_format verbosity] |})
  else exists subset,
      let called := host_simulate_pt H genotypes haplotypes replications heritability
                      prevalence region subset chunk_size output logged.1 w1 in
      res = (called.1,
             {| world := called.2;
                trace := [Ev_getLogger "run"; Ev_basicConfig log_format verbosity;
                          Ev_simulate_pt genotypes haplotypes replications heritability
                            prevalence region subset chunk_size output logged.1
                            called.1] |}).
Proof.
  cbv zeta. unfold_commands. unfold usage_message, log_format.
  destruct samples as [|s ss], samples_file as [f|]; simpl;
    destruct (host_getLogger H "run" w) as [log w0]; simpl; try done.
  - exists (Some (splitlines (read f))).
    by destruct (host_simulate_pt _ _ _ _ _ _ _ _ _ _ _ _).
  - exists None. by destruct (host_simulate_pt _ _ _ _ _ _ _ _ _ _ _ _).
  - exists (Some (s :: ss)). by destruct (host_simulate_pt _ _ _ _ _ _ _ _ _ _ _ _).
Qed.


(** *** Line terminators of a samples file *)

Lemma string_app_assoc (s t u : string) : (s ++ t) ++ u = s ++ (t ++ u).
Proof.
  induction s as [|c s IH]; [done|].
  change (String c ((s ++ t) ++ u) = String c (s ++ (t ++ u))). by rewrite IH.
Qed.

Lemma plain_not_lf c :
  negb (is_break1 c) && negb (Nat.eqb (nat_of_ascii c) 194)
    && negb (Nat.eqb (nat_of_ascii c) 226) = true ->
  Nat.eqb (nat_of_ascii c) 10 = false.
Proof.
  intros [[Hb _]%andb_prop _]%andb_prop. apply negb_true_iff in Hb.
  unfold is_break1 in Hb. by destruct (Nat.eqb (nat_of_ascii c) 10).
Qed.

Lemma splitlines_line_eol eol l rest :
  plain_line l = true ->
  eol = eol_lf \/ eol = eol_crlf \/ (eol = eol_cr /\ no_lf_head rest = true) ->
  splitlines_from 0 (l ++ eol ++ rest) = l :: splitlines_from 0 rest.
Proof.
  unfold plain_line. induction l as [|c l IH]; intros Hl Heol.
  - destruct Heol as [->|[->|[-> Hrest]]].
    + by destruct rest.
    + reflexivity.
    + destruct rest as [|d rest]; [done|]. cbn [no_lf_head] in Hrest.
      apply negb_true_iff in Hrest.
      change ("" ++ eol_cr ++ String d rest) with (String "013" (String d rest)).
      cbn [splitlines_from].
      assert (linebreak_len (String "013" (String d rest)) = 1%nat) as ->; [|done].
      unfold linebreak_len.
      change (is_break1 "013") with true. cbv iota.
      change (Nat.eqb (nat_of_ascii "013") 13) with true.
      by rewrite Hrest.
  - simpl in Hl. apply andb_prop in Hl as [Hc Hl].
    change ((String c l) ++ eol ++ rest) with (String c (l ++ eol ++ rest)).
    cbn [splitlines_from]. rewrite (linebreak_len_plain c _ Hc).
    by rewrite (IH Hl Heol).
Qed.

Lemma splitlines_plain l :
  plain_line l = true ->
  splitlines_from 0 l = match l with EmptyString => [] | _ => [l] end.
Proof.
  unfold plain_line. induction l as [|c l IH]; [done|]. intros Hl.
  simpl in Hl. apply andb_prop in Hl as [Hc Hl].
  cbn [splitlines_from]. rewrite (linebreak_len_plain c _ Hc), (IH Hl).
  by destruct l.
Qed.

Lemma no_lf_head_plain l t :
  plain_line l = true -> no_lf_head t = true -> no_lf_head (l ++ t) = true.
Proof.
  destruct l as [|c l]; [done|]. unfold plain_line. simpl.
  intros [Hc _]%andb_prop _.
  change (String c l ++ t) with (String c (l ++ t)). cbn [no_lf_head].
  by rewrite (plain_not_lf c Hc).
Qed.

Lemma no_lf_head_text ls final :
  Forall (fun l => plain_line l = true) ls -> plain_line final = true ->
  no_lf_head (file_text eol_cr ls ++ final) = true.
Proof.
  intros Hls Hfinal. destruct Hls as [|l ls Hl Hls].
  - change (file_text eol_cr [] ++ final) with final.
    destruct final as [|c l]; [done|]. unfold plain_line in Hfinal. simpl in Hfinal.
    apply andb_prop in Hfinal as [Hc _]. cbn [no_lf_head]. by rewrite (plain_not_lf c Hc).
  - cbn [file_text]. rewrite !string_app_assoc. by apply no_lf_head_plain.
Qed.

Lemma splitlines_file_text eol ls final :
  eol ∈ [eol_lf; eol_cr; eol_crlf] ->
  Forall (fun l => plain_line l = true) ls -> plain_line final = true ->
  splitlines (file_text eol ls ++ final)
  = (ls ++ match final with EmptyString => [] | _ => [final] end)%list.
Proof.
  intros Heol Hls Hfinal. unfold splitlines.
  induction Hls as [|l ls Hl Hls IH]; [by apply splitlines_plain|].
  cbn [file_text]. rewrite !string_app_assoc.
  rewrite splitlines_line_eol; [by rewrite IH|done|].
  apply elem_of_cons in Heol as [->|Heol]; [by left|].
  apply elem_of_cons in Heol as [->|Heol]; [right; right|].
  - split; [done|]. by apply no_lf_head_text.
  - apply elem_of_cons in Heol as [->|Heol]; [by right; left|].
    by apply elem_of_nil in Heol.
Qed.

(** X8. Whether [read()] returns the lines of the samples file closed by
    line feeds, by carriage returns or by both, and whether or not the final
    line is closed, [simphenotype] and [transform] hand on the same
    identifiers, in the order of the file; an empty line gives an empty
    identifier. *)
Theorem samples_file_line_endings (H : Host) (genotypes haplotypes : string)
    (replications : Z) (heritability prevalence : option (Float H))
    (region : option string) (haplotype_ids : list string) (chunk_size : option Z)
    (discard_missing : bool) (output verbosity : string) (w : World H)
    (eol : string) (ls : list string) (final : string) :
  eol ∈ [eol_lf; eol_cr; eol_crlf] ->
  Forall (fun l => plain_line l = true) ls -> plain_line final = true ->
  let f := {| read := file_text eol ls ++ final |} in
  let subset := Some (ls ++ match final with EmptyString => [] | _ => [final] end)%list in
  pt_samples
    (trace (run (simphenotype genotypes haplotypes replications heritability prevalence
                   region [] (Some f) chunk_size output verbosity) w).2) = [subset]
  /\ th_samples
       (trace (run (transform genotypes haplotypes region [] (Some f) haplotype_ids
                      chunk_size discard_missing output verbosity) w).2) = [subset].
Proof.
  intros Heol Hls Hfinal f subset. unfold subset, f.
  rewrite <- (splitlines_file_text eol ls final Heol Hls Hfinal).
  split; unfold_commands; run_host; reflexivity.
Qed.

Lemma samples_file_line_endings_witness :
  pt_samples
    (trace (run (H := Demo.toy_host)
              (simphenotype "g.vcf" "h.hap" 1 None None None []
                 (Some {| read := file_text eol_crlf ["HG00096"; ""; "HG00097"]
                                  ++ "NA12878" |})
                 None "-" "ERROR") []).2)
  = [Some ["HG00096"; ""; "HG00097"; "NA12878"]]
  /\ th_samples
       (trace (run (H := Demo.toy_host)
                 (transform "g.vcf" "h.hap" None []
                    (Some {| read := file_text eol_crlf ["HG00096"; ""; "HG00097"]
                                     ++ "NA12878" |})
                    [] None false "-" "ERROR") []).2)
     = [Some ["HG00096"; ""; "HG00097"; "NA12878"]].
Proof.
  apply (samples_file_line_endings Demo.toy_host "g.vcf" "h.hap" 1 None None None []
           None false "-" "ERROR" [] eol_crlf ["HG00096"; ""; "HG00097"] "NA12878").
  - apply elem_of_cons. right. apply elem_of_cons. right. apply elem_of_cons. by left.
  - repeat constructor.
  - reflexivity.
Defined.

Lemma linebreak_len_zero c t : linebreak_len (String c t) = 0%nat -> is_break1 c = false.
Proof.
  unfold linebreak_len. destruct (is_break1 c); [|done].
  destruct t as [|d t]; [done|]. by destruct (_ && _).
Qed.

Lemma splitlines_from_no_break skip s :
  Forall (fun l => no_break l = true) (splitlines_from skip s).
Proof.
  revert skip. induction s as [|c s IH]; intros skip; [constructor|].
  cbn [splitlines_from]. destruct skip as [|k]; [|apply IH].
  destruct (linebreak_len (String c s)) as [|k] eqn:Hlen.
  - apply linebreak_len_zero in Hlen. specialize (IH 0%nat).
    destruct (splitlines_from 0 s) as [|l ls].
    + repeat constructor. unfold no_break. simpl. by rewrite Hlen.
    + apply Forall_cons in IH as [Hl Hls]. constructor; [|done].
      unfold no_break in *. simpl. by rewrite Hlen.
  - constructor; [done|apply IH].
Qed.

(** X9. No identifier that [simphenotype] or [transform] takes from a
    samples file holds a line feed, a carriage return or another one-byte
    line boundary, whatever the file holds. *)
Theorem samples_file_identifiers (H : Host) (genotypes haplotypes : string)
    (replications : Z) (heritability prevalence : option (Float H))
    (region : option string) (samples : list string) (f : TextFile)
    (haplotype_ids : list string) (chunk_size : option Z)
    (discard_missing : bool) (output verbosity : string) (w : World H) :
  let clean (subset : option (list string)) :=
    exists ls, subset = Some ls /\ Forall (fun l => no_break l = true) ls in
  Forall clean
    (pt_samples
       (trace (run (simphenotype genotypes haplotypes replications heritability
                      prevalence region samples (Some f) chunk_size output
                      verbosity) w).2))
  /\ Forall clean
       (th_samples
          (trace (run (transform genotypes haplotypes region samples (Some f)
                         haplotype_ids chunk_size discard_missing output
                         verbosity) w).2)).
Proof.
  intros clean.
  assert (clean (Some (splitlines (read f)))) as Hclean.
  { eexists. split; [done|]. apply splitlines_from_no_break. }
  split; unfold_commands; run_host; destruct samples as [|s ss]; simpl; run_host;
    first [ by apply Forall_nil | by apply Forall_cons ].
Qed.

(** *** Verbosity and failures of [simgenotype] *)

(** X10. [--verbose] changes nothing but the printing: the run with the
    flag ends as the run without it, its trace is the trace of that run
    followed by the printed lines, three when the run returns and none when
    it raises, and its world is the world of that run after these prints. *)
Theorem simgenotype_verbose_only_prints (H : Host)
    (invcf sample_info model mapdir out : string) (popsize : Z) (seed : option Z)
    (chroms : string) (only_breakpoint : bool) (w : World H) :
  let quiet := run (simgenotype invcf sample_info model mapdir out popsize seed chroms
                      only_breakpoint false) w in
  let verbose := run (simgenotype invcf sample_info model mapdir out popsize seed
                        chroms only_breakpoint true) w in
  verbose.1 = quiet.1
  /\ exists lines,
       trace verbose.2 = (trace quiet.2 ++ map Ev_print lines)%list
       /\ world verbose.2 = foldl (fun w line => host_print H line w) (world quiet.2) lines
       /\ length lines = match quiet.1 with Returned _ => 3%nat | Raised _ => 0%nat end.
Proof.
  cbv zeta. unfold_commands.
  run_host; try (destruct only_breakpoint; simpl; run_host);
    (split; [done|]);
    first [ by exists [] | by eexists [_; _; _] ].
Qed.

(** X11. A run of [simgenotype] that raises ends at the call that raised:
    the last event of its trace is a call into [sim_genotype] that raised the
    exception of the run, and every call before it returned. In a run that
    returns, every call returned. *)
Theorem simgenotype_fails_fast (H : Host)
    (invcf sample_info model mapdir out : string) (popsize : Z) (seed : option Z)
    (chroms : string) (only_breakpoint verbose : bool) (w : World H) :
  let res := run (simgenotype invcf sample_info model mapdir out popsize seed chroms
                    only_breakpoint verbose) w in
  (forall e, res.1 = Raised e ->
     exists before ev,
       trace res.2 = (before ++ [ev])%list
       /\ is_stage ev = true /\ raised_by ev = Some e
       /\ Forall (fun ev' => raised_by ev' = None) before)
  /\ (res.1 = Returned tt -> Forall (fun ev => raised_by ev = None) (trace res.2)).
Proof.
  cbv zeta. unfold_commands.
  run_host; try (destruct only_breakpoint; simpl; run_host; destruct verbose; simpl);
    (split; [intros e' He'; try done; injection He' as <-|try done; intros _]);
    try (by repeat constructor).
  all: first [ by eexists [_], _; repeat split; repeat constructor
             | by eexists [_; _], _; repeat split; repeat constructor
             | by eexists [_; _; _], _; repeat split; repeat constructor
             | by eexists [_; _; _; _; _; _], _; repeat split; repeat constructor ].
Qed.

End CliMoreFacts.
